(** * Zoho-Creator-Picture-Sync: a shallow embedding of the batch sync core

    This development embeds, in Rocq, the parts of the Python backend that
    the batch synchronisation controller is built from:
    - [src/backend/sync/processor.py]   ([ImageProcessor]),
    - [src/backend/sync/batch_engine.py] ([BatchSyncEngine]),
    - [src/backend/sync/engine.py]       ([SyncEngine.run_sync]),
    - [src/backend/db/models.py]         ([ImageRepository], [BatchSyncRepository]),
    - [src/backend/zoho/client.py]       ([ZohoCreatorClient.fetch_records] and
                                          [extract_image_fields]).

    Python floats are modelled by Rocq's primitive IEEE-754 binary64 floats,
    which are the floats CPython computes with. PIL, the object store and the
    HTTP transport are libraries outside the repository: they enter as
    parameters (Section variables or fields of an environment record). *)

From Stdlib Require Import ZArith List String Ascii Bool Lia.
From Stdlib Require Import PrimFloat Floats Uint63.
Import ListNotations.
Open Scope Z_scope.

(** ** Python helpers *)
Module Py.

(** Python [bytes]: a list of byte values. *)
Definition bytes := list Z.

(** [len(b)] *)
Definition len (b : bytes) : Z := Z.of_nat (List.length b).

(** [b[i:j]] for [0 <= i <= j]. *)
Definition slice (b : bytes) (i j : nat) : bytes := firstn (j - i) (skipn i b).

Definition bytes_eqb (a b : bytes) : bool :=
  if list_eq_dec Z.eq_dec a b then true else false.

(** [str.lower()] on ASCII. *)
Definition lower_ascii (c : ascii) : ascii :=
  let n := nat_of_ascii c in
  if (Nat.leb 65 n && Nat.leb n 90)%bool then ascii_of_nat (n + 32) else c.

Fixpoint lower (s : string) : string :=
  match s with
  | EmptyString => EmptyString
  | String c t => String (lower_ascii c) (lower t)
  end.

(** [s.endswith(suf)] *)
Definition endswith (s suf : string) : bool :=
  (Nat.leb (String.length suf) (String.length s) &&
   String.eqb (substring (String.length s - String.length suf)
                         (String.length suf) s) suf)%bool.

(** [s.startswith(pre)] *)
Definition startswith (s pre : string) : bool := String.prefix pre s.

(** The part of a character list before its last ["."], if it has one. *)
Fixpoint before_last_dot (l : list ascii) : option (list ascii) :=
  match l with
  | [] => None
  | c :: t =>
      match before_last_dot t with
      | Some b => Some (c :: b)
      | None => if Ascii.eqb c "."%char then Some [] else None
      end
  end.

(** [s.rsplit(".", 1)[0] if "." in s else s] *)
Definition base_name (s : string) : string :=
  match before_last_dot (list_ascii_of_string s) with
  | Some b => string_of_list_ascii b
  | None => s
  end.

(** [float(n)] for [|n| < 2^63], rounded to nearest as Python does. *)
Definition float_of (z : Z) : float :=
  if z <? 0 then PrimFloat.opp (of_uint63 (Uint63.of_Z (- z)))
  else of_uint63 (Uint63.of_Z z).

(** [a / b] on ints (true division); [None] is [ZeroDivisionError]. For
    [|a|, |b| <= 2^53] both conversions are exact, so the one rounding of the
    float division is CPython's correctly rounded quotient. *)
Definition truediv (a b : Z) : option float :=
  if b =? 0 then None else Some (PrimFloat.div (float_of a) (float_of b)).

(** [min(a, b)]: the first argument unless the second is strictly smaller. *)
Definition fmin (a b : float) : float := if PrimFloat.ltb b a then b else a.

(** The value [m * 2^e] of a non-negative finite float, truncated. *)
Definition trunc_pos (m : positive) (e : Z) : Z :=
  if 0 <=? e then Z.shiftl (Zpos m) e else Z.shiftr (Zpos m) (- e).

(** [int(f)]: truncation toward zero (finite floats). *)
Definition int_of_float (f : float) : Z :=
  match Prim2SF f with
  | SpecFloat.S754_finite false m e => trunc_pos m e
  | SpecFloat.S754_finite true m e => - trunc_pos m e
  | _ => 0
  end.

End Py.

Import Py.

(** ** [sync/processor.py] *)
Module Processor.

(** [ImageProcessor(max_dimension, quality, max_size_mb)] *)
Record ImageProcessor := {
  max_dimension : Z;
  quality : Z;
  max_size_bytes : Z
}.

Definition make (max_dimension quality max_size_mb : Z) : ImageProcessor :=
  {| max_dimension := max_dimension; quality := quality;
     max_size_bytes := max_size_mb * 1024 * 1024 |}.

(** The defaults of [__init__] ([4000], [85], [5]). *)
Definition default : ImageProcessor := make 4000 85 5.

(** The part of a PIL image the processor looks at. [Image.open] is lazy: it
    reads the header only ([mode], [size], [format]); [im_loadable] says
    whether the pixel data then decodes, which [convert], [resize] and [save]
    force ([load()]), raising [OSError] when it does not (a truncated or
    corrupt file behind a valid header). *)
Record PilImage := {
  im_mode : string;
  im_width : Z;
  im_height : Z;
  im_format : option string;
  im_loadable : bool
}.

(** [img.convert("RGB")]; [None] when it raises. *)
Definition pil_convert_rgb (img : PilImage) : option PilImage :=
  if im_loadable img
  then Some {| im_mode := "RGB"; im_width := im_width img; im_height := im_height img;
               im_format := None; im_loadable := true |}
  else None.

(** [img.resize((w, h), ...)]; [None] when it raises: the pixel data does not
    decode, or a dimension is not positive ([ValueError: height and width
    must be > 0]). *)
Definition pil_resize (img : PilImage) (size : Z * Z) : option PilImage :=
  if (im_loadable img && (0 <? fst size) && (0 <? snd size))%bool
  then Some {| im_mode := im_mode img; im_width := fst size; im_height := snd size;
               im_format := None; im_loadable := true |}
  else None.

(** The largest width and height the WebP encoder accepts
    ([WEBP_MAX_DIMENSION]); beyond it [img.save(..., format="WEBP")] raises. *)
Definition webp_max_dimension : Z := 16383.

(** Whether [img.save(output, format="WEBP", ...)] returns: the pixel data
    decodes and both dimensions are within the encoder's range. *)
Definition webp_encodes (img : PilImage) : bool :=
  (im_loadable img && (0 <? im_width img) && (im_width img <=? webp_max_dimension) &&
   (0 <? im_height img) && (im_height img <=? webp_max_dimension))%bool.

Section WithPil.

(** [Image.open(io.BytesIO(b))]; [None] when it raises. *)
Variable pil_open : bytes -> option PilImage.
(** The bytes [img.save(output, format="WEBP", quality=q, method=4)] writes
    when it returns ([webp_encodes img]). *)
Variable pil_save_webp : PilImage -> Z -> bytes.

Definition needs_processing (p : ImageProcessor) (image_bytes : bytes) : bool :=
  len image_bytes >? max_size_bytes p.

(** [ratio = min(self.max_dimension / width, self.max_dimension / height)] *)
Definition resize_ratio (max_dim width height : Z) : option float :=
  match truediv max_dim width, truediv max_dim height with
  | Some a, Some b => Some (fmin a b)
  | _, _ => None
  end.

(** [new_size = (int(width * ratio), int(height * ratio))] *)
Definition new_size (max_dim width height : Z) : option (Z * Z) :=
  match resize_ratio max_dim width height with
  | Some ratio =>
      Some (int_of_float (PrimFloat.mul (float_of width) ratio),
            int_of_float (PrimFloat.mul (float_of height) ratio))
  | None => None
  end.

(** [ImageProcessor.process]; [None] when an exception escapes it. *)
Definition process (p : ImageProcessor) (image_bytes : bytes)
    (original_filename : string) : option (bytes * string) :=
  match pil_open image_bytes with
  | None => Some (image_bytes, original_filename)
  | Some img0 =>
      let converted := if (String.eqb (im_mode img0) "RGBA" ||
                           String.eqb (im_mode img0) "P")%bool
                       then pil_convert_rgb img0 else Some img0 in
      match converted with
      | None => None
      | Some img1 =>
          let width := im_width img1 in
          let height := im_height img1 in
          let resized :=
            if (width >? max_dimension p) || (height >? max_dimension p)
            then match new_size (max_dimension p) width height with
                 | Some size => pil_resize img1 size
                 | None => None
                 end
            else Some img1 in
          match resized with
          | None => None
          | Some img2 =>
              if webp_encodes img2
              then Some (pil_save_webp img2 (quality p),
                         (base_name original_filename ++ ".webp")%string)
              else None
          end
      end
  end.

Definition image_exts : list string :=
  [".jpg"; ".jpeg"; ".png"; ".gif"; ".webp"; ".heic"; ".bmp"; ".tiff"]%string.

Definition format_map (fmt : option string) : string :=
  match fmt with
  | Some "JPEG" => ".jpg" | Some "PNG" => ".png" | Some "GIF" => ".gif"
  | Some "WEBP" => ".webp" | Some "HEIC" => ".heic" | Some "BMP" => ".bmp"
  | Some "TIFF" => ".tiff" | _ => ".jpg"
  end%string.

(** [ImageProcessor._detect_format] *)
Definition detect_format (b : bytes) : string :=
  if len b <? 12 then ".jpg"
  else if bytes_eqb (slice b 0 3) [255; 216; 255] then ".jpg"
  else if bytes_eqb (slice b 0 8) [137; 80; 78; 71; 13; 10; 26; 10] then ".png"
  else if (bytes_eqb (slice b 0 6) [71; 73; 70; 56; 55; 97] ||
           bytes_eqb (slice b 0 6) [71; 73; 70; 56; 57; 97])%bool then ".gif"
  else if (bytes_eqb (slice b 0 4) [82; 73; 70; 70] &&
           bytes_eqb (slice b 8 12) [87; 69; 66; 80])%bool then ".webp"
  else if (bytes_eqb (slice b 4 12) [102; 116; 121; 112; 104; 101; 105; 99] ||
           bytes_eqb (slice b 4 12) [102; 116; 121; 112; 109; 105; 102; 49])%bool
       then ".heic"
  else if bytes_eqb (slice b 0 2) [66; 77] then ".bmp"
  else if (bytes_eqb (slice b 0 4) [73; 73; 42; 0] ||
           bytes_eqb (slice b 0 4) [77; 77; 0; 42])%bool then ".tiff"
  else match pil_open b with
       | Some img => format_map (im_format img)
       | None => ".jpg"
       end%string.

(** [ImageProcessor._ensure_extension] *)
Definition ensure_extension (b : bytes) (filename : string) : string :=
  let lower_name := lower filename in
  if existsb (endswith lower_name) image_exts then filename
  else (base_name filename ++ detect_format b)%string.

(** [ImageProcessor.process_if_needed]: [(bytes, filename, was_processed)]. *)
Definition process_if_needed (p : ImageProcessor) (image_bytes : bytes)
    (filename : string) : option (bytes * string * bool) :=
  if needs_processing p image_bytes then
    match process p image_bytes filename with
    | Some (processed, new_name) => Some (processed, new_name, true)
    | None => None
    end
  else Some (image_bytes, ensure_extension image_bytes filename, false).

End WithPil.

End Processor.

(** ** Sample payloads *)
Module Samples.

(** A 50 KB (51200-byte) PNG payload: the PNG signature and its body. *)
Definition png_50k : bytes :=
  [137; 80; 78; 71; 13; 10; 26; 10] ++ repeat 0 (Z.to_nat 51192).

(** A decoded 6000x3000 RGB photograph. *)
Definition photo_6000x3000 : Processor.PilImage :=
  {| Processor.im_mode := "RGB"%string; Processor.im_width := 6000;
     Processor.im_height := 3000; Processor.im_format := Some "JPEG"%string;
     Processor.im_loadable := true |}.

(** A decodable 3x49 RGB image: a thin vertical strip. *)
Definition thin_3x49 : Processor.PilImage :=
  {| Processor.im_mode := "RGB"%string; Processor.im_width := 3;
     Processor.im_height := 49; Processor.im_format := Some "PNG"%string;
     Processor.im_loadable := true |}.

(** A payload with a JPEG header whose pixel data is cut off. *)
Definition truncated_jpeg : bytes := [255; 216; 255; 224; 0; 16].

(** What [Image.open] reads from it: a 640x480 JPEG header, and pixel data
    that does not decode. *)
Definition truncated_jpeg_header : Processor.PilImage :=
  {| Processor.im_mode := "RGB"%string; Processor.im_width := 640;
     Processor.im_height := 480; Processor.im_format := Some "JPEG"%string;
     Processor.im_loadable := false |}.

End Samples.

(** ** Data of [sync/batch_engine.py] and [db/models.py] *)
Module Types.

(** The values of the [status] column of [batch_sync_state]. *)
Inductive Status :=
| Pending | Running | Paused | Cancelled | Completed | CompletedWithErrors | Failed.

Definition status_eqb (a b : Status) : bool :=
  match a, b with
  | Pending, Pending | Running, Running | Paused, Paused
  | Cancelled, Cancelled | Completed, Completed
  | CompletedWithErrors, CompletedWithErrors | Failed, Failed => true
  | _, _ => false
  end.

(** One entry of [extract_image_fields(record)]. *)
Record ImgInfo := {
  field_name : string;
  download_url : string;
  filename : string
}.

(** A source record as [_process_record] reads it: [str(record.get("ID"))],
    the parsed [Modified_Time] (a timestamp), the [Added_Time] formatted by
    [strftime("%Y-%m")], [record.get(self.category_field)], and the list
    [extract_image_fields(record)] returns for it. *)
Record SrcRecord := {
  rec_ID : string;
  rec_modified : option Z;
  rec_created_ym : option string;
  rec_category : option string;
  rec_images : list ImgInfo
}.

(** A row of the [images] table ([SyncedImage]). *)
Record Row := {
  zoho_record_id : string;
  row_field_name : string;
  storage_path : string;
  original_filename : string;
  file_size_bytes : Z;
  was_processed : bool
}.

(** An entry of an error log: the keys [record_id], [field], [error] and
    [timestamp], each [None] when the dict has no such key. *)
Record ErrEntry := {
  err_record_id : option string;
  err_field : option string;
  err_error : string;
  err_timestamp : option Z
}.

(** The counters written by [update_batch_sync] after a batch. *)
Record Progress := {
  p_current_offset : Z;
  p_batches_completed : Z;
  p_records_processed : Z;
  p_images_synced : Z;
  p_images_skipped : Z;
  p_errors : Z
}.

(** The effects of [run_batch_sync], in the order it performs them. *)
Inductive Event :=
| EvClearRequests                   (** [clear_requests(batch_id)] *)
| EvSetStatus (s : Status)          (** [batch_repo.set_status] *)
| EvFetched (r : SrcRecord)         (** the [async for] receives [r] *)
| EvBatchStarted                    (** [update_batch_sync(current_batch_started_at=...)] *)
| EvProcessRecord (r : SrcRecord)   (** [_process_batch] handles [r] *)
| EvProgress (u : Progress)         (** [update_batch_sync(current_offset=..., ...)] *)
| EvAppendErrors (l : list ErrEntry) (** [batch_repo.append_errors] *)
| EvSleep (d : Z).                  (** [asyncio.sleep(delay_seconds)] *)

End Types.

Import Types.

(** ** The [batch_sync_state] row and its repository ([BatchSyncRepository]) *)
Module Ledger.

Record BatchSession := {
  status : Status;
  batch_size : Z;
  delay_between_batches : Z;
  date_to : option Z;
  dry_run : bool;
  current_offset : Z;
  batches_completed : Z;
  records_processed : Z;
  images_synced : Z;
  images_skipped : Z;
  errors : Z;
  error_log : list ErrEntry
}.

Definition set_status (s : BatchSession) (st : Status) : BatchSession :=
  {| status := st; batch_size := batch_size s;
     delay_between_batches := delay_between_batches s; date_to := date_to s;
     dry_run := dry_run s; current_offset := current_offset s;
     batches_completed := batches_completed s; records_processed := records_processed s;
     images_synced := images_synced s; images_skipped := images_skipped s;
     errors := errors s; error_log := error_log s |}.

(** [update_batch_sync] with the progress fields supplied. *)
Definition update_progress (s : BatchSession) (u : Progress) : BatchSession :=
  {| status := status s; batch_size := batch_size s;
     delay_between_batches := delay_between_batches s; date_to := date_to s;
     dry_run := dry_run s; current_offset := p_current_offset u;
     batches_completed := p_batches_completed u; records_processed := p_records_processed u;
     images_synced := p_images_synced u; images_skipped := p_images_skipped u;
     errors := p_errors u; error_log := error_log s |}.

(** [append_errors]: keep the last 1000 entries. *)
Definition append_errors (s : BatchSession) (new_errors : list ErrEntry) : BatchSession :=
  let combined := error_log s ++ new_errors in
  let combined := if Nat.ltb 1000 (List.length combined)
                  then skipn (List.length combined - 1000) combined else combined in
  {| status := status s; batch_size := batch_size s;
     delay_between_batches := delay_between_batches s; date_to := date_to s;
     dry_run := dry_run s; current_offset := current_offset s;
     batches_completed := batches_completed s; records_processed := records_processed s;
     images_synced := images_synced s; images_skipped := images_skipped s;
     errors := errors s; error_log := combined |}.

(** The row after one effect of the engine. *)
Definition apply_event (s : BatchSession) (e : Event) : BatchSession :=
  match e with
  | EvSetStatus st => set_status s st
  | EvProgress u => update_progress s u
  | EvAppendErrors l => append_errors s l
  | _ => s
  end.

Definition replay (s : BatchSession) (tr : list Event) : BatchSession :=
  fold_left apply_event tr s.

End Ledger.

(** ** [BatchSyncEngine] *)
Module Engine.

(** The services the engine calls: the [images] table's existence check
    (true when it raises), [download_image] ([None] when it raises), the
    injected [ImageProcessor.process_if_needed] ([None] when it raises),
    the storage upload (true when it raises for a path) and
    [datetime.utcnow()]. *)
Record Env := {
  exists_raises : string -> string -> bool;
  download_image : string -> option bytes;
  process_if_needed : bytes -> string -> option (bytes * string * bool);
  upload_raises : string -> bool;
  utcnow : Z
}.

(** The [stats] dict. *)
Record Stats := {
  records_processed : Z;
  images_synced : Z;
  images_skipped : Z;
  errors : Z;
  batches_completed : Z
}.

(** The [images] table, the uploaded objects, [stats] and the in-memory
    [error_log] list. *)
Record St := {
  rows : list Row;
  uploads : list (string * bytes);
  stats : Stats;
  error_log : list ErrEntry
}.

Definition set_stats (st : St) (s : Stats) : St :=
  {| rows := rows st; uploads := uploads st; stats := s; error_log := error_log st |}.

Definition set_error_log (st : St) (l : list ErrEntry) : St :=
  {| rows := rows st; uploads := uploads st; stats := stats st; error_log := l |}.

Definition incr_records_processed (s : Stats) : Stats :=
  {| records_processed := records_processed s + 1; images_synced := images_synced s;
     images_skipped := images_skipped s; errors := errors s;
     batches_completed := batches_completed s |}.
Definition incr_images_synced (s : Stats) : Stats :=
  {| records_processed := records_processed s; images_synced := images_synced s + 1;
     images_skipped := images_skipped s; errors := errors s;
     batches_completed := batches_completed s |}.
Definition incr_images_skipped (s : Stats) : Stats :=
  {| records_processed := records_processed s; images_synced := images_synced s;
     images_skipped := images_skipped s + 1; errors := errors s;
     batches_completed := batches_completed s |}.
Definition incr_errors (s : Stats) : Stats :=
  {| records_processed := records_processed s; images_synced := images_synced s;
     images_skipped := images_skipped s; errors := errors s + 1;
     batches_completed := batches_completed s |}.
Definition incr_batches_completed (s : Stats) : Stats :=
  {| records_processed := records_processed s; images_synced := images_synced s;
     images_skipped := images_skipped s; errors := errors s;
     batches_completed := batches_completed s + 1 |}.

(** [ImageRepository.image_exists] *)
Definition image_exists (rs : list Row) (rid field : string) : bool :=
  existsb (fun r => (String.eqb (zoho_record_id r) rid &&
                     String.eqb (row_field_name r) field)%bool) rs.

(** [ImageRepository.upsert_image] ([on_conflict="zoho_record_id,field_name"]). *)
Definition upsert_image (rs : list Row) (row : Row) : list Row :=
  if image_exists rs (zoho_record_id row) (row_field_name row)
  then map (fun r => if (String.eqb (zoho_record_id r) (zoho_record_id row) &&
                         String.eqb (row_field_name r) (row_field_name row))%bool
                     then row else r) rs
  else rs ++ [row].

(** [download_url.startswith(("http://", "https://"))] *)
Definition url_ok (u : string) : bool :=
  (startswith u "http://"%string || startswith u "https://"%string)%bool.

(** [f"{category or 'uncategorized'}/{date_folder}/{record_id}_{final_filename}"] *)
Definition storage_path_of (r : SrcRecord) (final_filename : string) : string :=
  let cat_folder := match rec_category r with
                    | Some c => if String.eqb c "" then "uncategorized" else c
                    | None => "uncategorized"
                    end%string in
  let date_folder := match rec_created_ym r with Some d => d | None => "unknown" end%string in
  (cat_folder ++ "/" ++ date_folder ++ "/" ++ rec_ID r ++ "_" ++ final_filename)%string.

(** The error entry of the attachment-level [except] (and of the invalid URL
    branch): [{"record_id", "field", "error"}]. *)
Definition attachment_error (st : St) (rid field msg : string) : St :=
  {| rows := rows st; uploads := uploads st; stats := incr_errors (stats st);
     error_log := error_log st ++
       [{| err_record_id := Some rid; err_field := Some field; err_error := msg;
           err_timestamp := None |}] |}.

(** The outcome of a statement: it finishes, or raises with the state
    reached so far. *)
Inductive Res := Ok (st : St) | Raise (msg : string) (st : St).

(** One iteration of the [for img_info in images] loop of [_process_record]. *)
Definition sync_image (env : Env) (dry_run : bool) (r : SrcRecord) (st : St)
    (img : ImgInfo) : Res :=
  let rid := rec_ID r in
  let fld := field_name img in
  if exists_raises env rid fld then Raise "image_exists failed"%string st
  else if image_exists (rows st) rid fld then
    Ok (set_stats st (incr_images_skipped (stats st)))
  else if dry_run then Ok (set_stats st (incr_images_synced (stats st)))
  else
    let url := download_url img in
    if negb (url_ok url) then Ok (attachment_error st rid fld ("Invalid URL: " ++ url)%string)
    else match download_image env url with
    | None => Ok (attachment_error st rid fld "download failed"%string)
    | Some image_bytes =>
        match process_if_needed env image_bytes (filename img) with
        | None => Ok (attachment_error st rid fld "processing failed"%string)
        | Some (processed, final_filename, was_proc) =>
            let path := storage_path_of r final_filename in
            if upload_raises env path then Ok (attachment_error st rid fld "upload failed"%string)
            else Ok {| rows := upsert_image (rows st)
                         {| zoho_record_id := rid; row_field_name := fld;
                            storage_path := path; original_filename := filename img;
                            file_size_bytes := len processed; was_processed := was_proc |};
                       uploads := uploads st ++ [(path, processed)];
                       stats := incr_images_synced (stats st);
                       error_log := error_log st |}
        end
    end.

Fixpoint sync_images (env : Env) (dry_run : bool) (r : SrcRecord) (st : St)
    (imgs : list ImgInfo) : Res :=
  match imgs with
  | [] => Ok st
  | img :: rest =>
      match sync_image env dry_run r st img with
      | Ok st' => sync_images env dry_run r st' rest
      | Raise m st' => Raise m st'
      end
  end.

(** [_process_record] *)
Definition process_record (env : Env) (dry_run : bool) (r : SrcRecord) (st : St) : Res :=
  sync_images env dry_run r st (rec_images r).

(** The body of the [for record in records] loop of [_process_batch]. *)
Definition process_one (env : Env) (dry_run : bool) (st : St) (r : SrcRecord) : St :=
  let st := set_stats st (incr_records_processed (stats st)) in
  match process_record env dry_run r st with
  | Ok st' => st'
  | Raise m st' =>
      {| rows := rows st'; uploads := uploads st'; stats := incr_errors (stats st');
         error_log := error_log st' ++
           [{| err_record_id := Some (rec_ID r); err_field := None; err_error := m;
               err_timestamp := Some (utcnow env) |}] |}
  end.

(** [_process_batch], with the effects it performs. *)
Definition process_batch (env : Env) (dry_run : bool) (records : list SrcRecord)
    (st : St) : St * list Event :=
  (fold_left (process_one env dry_run) records st,
   EvBatchStarted :: map EvProcessRecord records).

End Engine.


(** ** [BatchSyncEngine.run_batch_sync] *)
Module Controller.

Import Engine.

(** The local state of the [async for] loop: [batch_records], [record_index],
    the store with [stats] and [error_log], the number of pause/cancel checks
    made so far, and the effects performed so far. *)
Record Loop := {
  batch_records : list SrcRecord;
  record_index : Z;
  lst : St;
  checks : nat;
  trace : list Event
}.

(** What [_cancel_requested.get(batch_id)] and [_pause_requested.get(batch_id)]
    return at the [k]-th check of a run: the table is written by other tasks,
    so the run sees it as an input. *)
Definition Signals := nat -> bool * bool.

(** [if date_to: ... if modified_time and modified_time > date_to: continue] *)
Definition date_filtered (date_to : option Z) (r : SrcRecord) : bool :=
  match date_to, rec_modified r with
  | Some d, Some m => m >? d
  | _, _ => false
  end.

Definition progress_of (idx : Z) (s : Stats) : Progress :=
  {| p_current_offset := idx; p_batches_completed := batches_completed s;
     p_records_processed := records_processed s; p_images_synced := images_synced s;
     p_images_skipped := images_skipped s; p_errors := errors s |}.

Definition with_trace (l : Loop) (tr : list Event) : Loop :=
  {| batch_records := batch_records l; record_index := record_index l; lst := lst l;
     checks := checks l; trace := tr |}.

Definition with_index (l : Loop) (i : Z) : Loop :=
  {| batch_records := batch_records l; record_index := i; lst := lst l;
     checks := checks l; trace := trace l |}.

Section Run.

Variable env : Env.
Variable sess : Ledger.BatchSession.
Variable signals : Signals.

(** The [if len(batch_records) >= batch_size:] block: [inl] when it returns
    (cancelled or paused), [inr] when the loop goes on. *)
Definition full_batch (l : Loop) : Loop + Loop :=
  let '(st, evs) := process_batch env (Ledger.dry_run sess) (batch_records l) (lst l) in
  let st := set_stats st (incr_batches_completed (stats st)) in
  let tr := trace l ++ evs ++ [EvProgress (progress_of (record_index l) (stats st))] in
  let '(st, tr) := match error_log st with
                   | [] => (st, tr)
                   | es => (set_error_log st [], tr ++ [EvAppendErrors es])
                   end in
  let '(cancel, pause) := signals (checks l) in
  if cancel then
    inl {| batch_records := []; record_index := record_index l; lst := st;
           checks := checks l; trace := tr ++ [EvSetStatus Cancelled] |}
  else if pause then
    inl {| batch_records := []; record_index := record_index l; lst := st;
           checks := checks l; trace := tr ++ [EvSetStatus Paused] |}
  else
    inr {| batch_records := []; record_index := record_index l; lst := st;
           checks := S (checks l);
           trace := tr ++ (if Ledger.delay_between_batches sess >? 0
                           then [EvSleep (Ledger.delay_between_batches sess)]
                           else []) |}.

(** One iteration of [async for record in self.zoho.fetch_records(...)]. *)
Definition step (l : Loop) (r : SrcRecord) : Loop + Loop :=
  let l := with_trace l (trace l ++ [EvFetched r]) in
  if record_index l <? Ledger.current_offset sess then
    inr (with_index l (record_index l + 1))
  else if date_filtered (Ledger.date_to sess) r then inr l
  else
    let l := {| batch_records := batch_records l ++ [r];
                record_index := record_index l + 1; lst := lst l;
                checks := checks l; trace := trace l |} in
    if Z.of_nat (List.length (batch_records l)) >=? Ledger.batch_size sess
    then full_batch l else inr l.

Fixpoint run_loop (src : list SrcRecord) (l : Loop) : Loop + Loop :=
  match src with
  | [] => inr l
  | r :: rest =>
      match step l r with
      | inl l' => inl l'
      | inr l' => run_loop rest l'
      end
  end.

(** The [# Process remaining records] block and the final status. *)
Definition finish (l : Loop) : list Event * St :=
  let '(st, tr) :=
    match batch_records l with
    | [] => (lst l, trace l)
    | recs =>
        let '(st, evs) := process_batch env (Ledger.dry_run sess) recs (lst l) in
        let st := set_stats st (incr_batches_completed (stats st)) in
        let tr := trace l ++ evs ++ [EvProgress (progress_of (record_index l) (stats st))] in
        match error_log st with
        | [] => (st, tr)
        | es => (st, tr ++ [EvAppendErrors es])
        end
    end in
  let final := if errors (stats st) =? 0 then Completed else CompletedWithErrors in
  (tr ++ [EvSetStatus final; EvClearRequests], st).

(** [run_batch_sync(batch_id)] on the session row [sess], with the
    [images] table and the bucket as [store] and [src] the records
    [fetch_records] yields; it returns its effects and the final store. *)
Definition run_batch_sync (store : list Row * list (string * bytes))
    (src : list SrcRecord) : list Event * St :=
  let st0 := {| rows := fst store; uploads := snd store;
                stats := {| records_processed := Ledger.records_processed sess;
                            images_synced := Ledger.images_synced sess;
                            images_skipped := Ledger.images_skipped sess;
                            errors := Ledger.errors sess;
                            batches_completed := Ledger.batches_completed sess |};
                error_log := [] |} in
  let l0 := {| batch_records := []; record_index := 0; lst := st0; checks := 0;
               trace := [EvClearRequests; EvSetStatus Running] |} in
  match run_loop src l0 with
  | inl l => (trace l ++ [EvClearRequests], lst l)
  | inr l => finish l
  end.

End Run.

(** The loop state [run_batch_sync] enters its [async for] with: [stats]
    from the session row, [batch_records = []], [record_index = 0], and the
    [clear_requests] and [set_status("running")] calls made. *)
Definition loop_start (sess : Ledger.BatchSession) (store : list Row * list (string * bytes))
    : Loop :=
  {| batch_records := []; record_index := 0;
     lst := {| rows := fst store; uploads := snd store;
               stats := {| records_processed := Ledger.records_processed sess;
                           images_synced := Ledger.images_synced sess;
                           images_skipped := Ledger.images_skipped sess;
                           errors := Ledger.errors sess;
                           batches_completed := Ledger.batches_completed sess |};
               error_log := [] |};
     checks := 0; trace := [EvClearRequests; EvSetStatus Running] |}.

(** The records [_process_batch] handled, in order. *)
Fixpoint processed_records (tr : list Event) : list SrcRecord :=
  match tr with
  | [] => []
  | EvProcessRecord r :: rest => r :: processed_records rest
  | _ :: rest => processed_records rest
  end.

(** The [current_offset] values written, in order. *)
Fixpoint progress_offsets (tr : list Event) : list Z :=
  match tr with
  | [] => []
  | EvProgress u :: rest => p_current_offset u :: progress_offsets rest
  | _ :: rest => progress_offsets rest
  end.

(** For each progress write, the number of records fetched before it. *)
Fixpoint fetched_at_progress (n : Z) (tr : list Event) : list Z :=
  match tr with
  | [] => []
  | EvFetched _ :: rest => fetched_at_progress (n + 1) rest
  | EvProgress _ :: rest => n :: fetched_at_progress n rest
  | _ :: rest => fetched_at_progress n rest
  end.

Fixpoint count_progress (tr : list Event) : nat :=
  match tr with
  | [] => O
  | EvProgress _ :: rest => S (count_progress rest)
  | _ :: rest => count_progress rest
  end.

End Controller.

(** ** [ZohoCreatorClient.fetch_records] ([zoho/client.py]) *)
Module Client.

(** What the HTTP transport answers to one request: a page with its [data]
    array, a non-2xx status (so [raise_for_status] raises), or no answer
    (an [httpx.RequestError]). *)
Inductive Response :=
| RData (records : list SrcRecord)
| RStatus (code : Z)
| RNetError.

Inductive Exc := HTTPStatusError (code : Z) | RequestError.

Inductive FetchEnd := Exhausted | Raised (e : Exc) | OutOfFuel.

(** The records yielded, the number of requests sent, the sleeps taken, and
    how the generator ended. *)
Record FetchOut := {
  yielded : list SrcRecord;
  requests : nat;
  sleeps : list Z;
  outcome : FetchEnd
}.

(** The [n]-th request of the generator, for page [from]. *)
Definition Transport := nat -> Z -> Response.

(** The [while True] loop of [fetch_records]; [_make_request] sends one
    request per iteration. [fuel] bounds the iterations (a run of [429]
    answers can keep the loop going forever). *)
Fixpoint fetch_loop (fuel : nat) (transport : Transport) (page_size from_index : Z)
    (n : nat) (acc : FetchOut) : FetchOut :=
  match fuel with
  | O => {| yielded := yielded acc; requests := n; sleeps := sleeps acc;
            outcome := OutOfFuel |}
  | S f =>
      match transport n from_index with
      | RNetError =>
          {| yielded := yielded acc; requests := S n; sleeps := sleeps acc;
             outcome := Raised RequestError |}
      | RStatus code =>
          if code =? 429 then
            fetch_loop f transport page_size from_index (S n)
              {| yielded := yielded acc; requests := S n; sleeps := sleeps acc ++ [60];
                 outcome := outcome acc |}
          else
            {| yielded := yielded acc; requests := S n; sleeps := sleeps acc;
               outcome := Raised (HTTPStatusError code) |}
      | RData [] =>
          {| yielded := yielded acc; requests := S n; sleeps := sleeps acc;
             outcome := Exhausted |}
      | RData records =>
          fetch_loop f transport page_size (from_index + page_size) (S n)
            {| yielded := yielded acc ++ records; requests := S n; sleeps := sleeps acc;
               outcome := outcome acc |}
      end
  end.

(** [fetch_records(report, page_size=200)] *)
Definition fetch_records (fuel : nat) (transport : Transport) : FetchOut :=
  fetch_loop fuel transport 200 0 O
    {| yielded := []; requests := O; sleeps := []; outcome := Exhausted |}.

End Client.

(** ** Sample sessions and sources *)
Module EngineSamples.

Import Engine Controller.

(** A fresh session row as [create_batch_sync] writes it. *)
Definition session (batch_size delay : Z) (date_to : option Z) (dry_run : bool)
    : Ledger.BatchSession :=
  {| Ledger.status := Pending; Ledger.batch_size := batch_size;
     Ledger.delay_between_batches := delay; Ledger.date_to := date_to;
     Ledger.dry_run := dry_run; Ledger.current_offset := 0;
     Ledger.batches_completed := 0; Ledger.records_processed := 0;
     Ledger.images_synced := 0; Ledger.images_skipped := 0; Ledger.errors := 0;
     Ledger.error_log := [] |}.

(** A record with one photo field at [url], modified at time [m]. *)
Definition photo_record (id : string) (m : Z) (url : string) : SrcRecord :=
  {| rec_ID := id; rec_modified := Some m; rec_created_ym := Some "2024-05"%string;
     rec_category := Some "Site"%string;
     rec_images := [{| field_name := "Photo"%string; download_url := url;
                       filename := (id ++ "_Photo.jpg")%string |}] |}.

Definition url_of (id : string) : string :=
  ("https://creator.zoho.com/file/" ++ id)%string.

(** Services that all succeed. *)
Definition healthy_env : Env :=
  {| exists_raises := fun _ _ => false;
     download_image := fun _ => Some [255; 216; 255; 0];
     process_if_needed := fun b n => Some (b, n, false);
     upload_raises := fun _ => false;
     utcnow := 1700000000 |}.

Definition no_signals : Signals := fun _ => (false, false).
Definition pause_at_first_check : Signals :=
  fun k => match k with O => (false, true) | _ => (false, false) end.
Definition cancel_at_first_check : Signals :=
  fun k => match k with O => (true, false) | _ => (false, false) end.

(** A session row left [paused] at [offset]. *)
Definition resumed_session (batch_size offset : Z) : Ledger.BatchSession :=
  {| Ledger.status := Paused; Ledger.batch_size := batch_size;
     Ledger.delay_between_batches := 0; Ledger.date_to := None;
     Ledger.dry_run := false; Ledger.current_offset := offset;
     Ledger.batches_completed := 1; Ledger.records_processed := offset;
     Ledger.images_synced := offset; Ledger.images_skipped := 0; Ledger.errors := 0;
     Ledger.error_log := [] |}.

Definition five_records : list SrcRecord :=
  map (fun id => photo_record id 10 (url_of id))
      ["1"; "2"; "3"; "4"; "5"]%string.

(** The loop state of a five-record run in batches of two, under
    [cancel_at_first_check], after record 1. *)
Definition first_loop : Loop :=
  match run_loop healthy_env (session 2 0 None false) cancel_at_first_check
          [photo_record "1" 10 (url_of "1")] (loop_start (session 2 0 None false) ([], []))
  with inl l => l | inr l => l end.

End EngineSamples.

(** ** Measures used in the statements below *)
Module Measures.

Import Engine.

(** The number of [images] rows with key [(rid, field)]. *)
Definition count_key (rs : list Row) (rid field : string) : nat :=
  List.length (filter (fun r => (String.eqb (zoho_record_id r) rid &&
                                 String.eqb (row_field_name r) field)%bool) rs).

(** The attachments of [r] whose key has no row in [rs]. *)
Definition new_in_record (rs : list Row) (r : SrcRecord) : Z :=
  Z.of_nat (List.length (filter (fun img => negb (image_exists rs (rec_ID r) (field_name img)))
                                (rec_images r))).

(** The attachments of [recs] whose key has no row in [rs]. *)
Fixpoint count_new (rs : list Row) (recs : list SrcRecord) : Z :=
  match recs with
  | [] => 0
  | r :: rest => new_in_record rs r + count_new rs rest
  end.

(** Events that write no status. *)
Definition is_status (e : Event) : bool :=
  match e with EvSetStatus _ => true | _ => false end.

Definition no_status (ev : list Event) : Prop := Forall (fun e => is_status e = false) ev.

(** What runs between a progress write and the status check: the
    [if error_log: append_errors(...)] flush. *)
Definition flush_shape (mid : list Event) : Prop :=
  mid = [] \/ exists es, mid = [EvAppendErrors es].

(** The records the [date_to] filter lets through, in order. *)
Definition kept (date_to : option Z) (recs : list SrcRecord) : list SrcRecord :=
  filter (fun r => negb (Controller.date_filtered date_to r)) recs.

(** The loop invariant of [run_batch_sync] after the records [c] were
    fetched: the records handled or waiting in [batch_records] are the kept
    ones from position [current_offset] of [c] on, and [record_index] is
    [len(c)] while the resume skip is still running. *)
Definition resume_inv (sess : Ledger.BatchSession) (c : list SrcRecord)
    (l : Controller.Loop) : Prop :=
  Controller.processed_records (Controller.trace l) ++ Controller.batch_records l
    = kept (Ledger.date_to sess) (skipn (Z.to_nat (Ledger.current_offset sess)) c) /\
  ((Controller.record_index l < Ledger.current_offset sess /\
    Controller.record_index l = Z.of_nat (List.length c)) \/
   (Ledger.current_offset sess <= Controller.record_index l /\
    (Z.to_nat (Ledger.current_offset sess) <= List.length c)%nat)).

(** The invariant of a dry run of [run_batch_sync] that started on the
    [images] table [rows0] and the bucket [uploads0]: nothing written, and
    (when the existence check never raises) [images_synced] counts the
    attachments of the records handled so far that have no row. *)
Definition dry_run_inv (env : Engine.Env) (sess : Ledger.BatchSession) (rows0 : list Row)
    (uploads0 : list (string * bytes)) (l : Controller.Loop) : Prop :=
  rows (Controller.lst l) = rows0 /\ uploads (Controller.lst l) = uploads0 /\
  ((forall a b, exists_raises env a b = false) ->
   images_synced (stats (Controller.lst l)) =
     Ledger.images_synced sess + count_new rows0 (Controller.processed_records (Controller.trace l))).

End Measures.

(** ** The rows of one key *)
Module Rows.

(** The rows of [rs] keyed by [(zoho_record_id, field_name)] = [(rid, field)]. *)
Definition rows_at (rs : list Row) (rid field : string) : list Row :=
  filter (fun r => (String.eqb (zoho_record_id r) rid &&
                    String.eqb (row_field_name r) field)%bool) rs.

End Rows.
Import Rows.

Module Accounting.

Import Engine Controller.

(** The attachments of the records [recs]. *)
Fixpoint attachments (recs : list SrcRecord) : Z :=
  match recs with
  | [] => 0
  | r :: rest => Z.of_nat (List.length (rec_images r)) + attachments rest
  end.

(** [images_synced + images_skipped + errors] *)
Definition image_total (s : Stats) : Z := images_synced s + images_skipped s + errors s.

(** The counters of the [batch_sync_state] row. *)
Definition counters (s : Ledger.BatchSession) : Z * Z * Z * Z * Z :=
  (Ledger.records_processed s, Ledger.images_synced s, Ledger.images_skipped s,
   Ledger.errors s, Ledger.batches_completed s).

(** The same counters in the [stats] dict. *)
Definition stats_counters (s : Stats) : Z * Z * Z * Z * Z :=
  (records_processed s, images_synced s, images_skipped s, errors s, batches_completed s).

(** The bookkeeping of [run_batch_sync] for the effects [tr] performed so far
    and the in-memory [stats] [x]: one [records_processed] per handled
    record, one [batches_completed] per progress write, at most one
    image outcome per attachment of a handled record (exactly one when the
    existence check never raises), and the row's counters equal to [stats]. *)
Definition counter_inv (env : Env) (sess : Ledger.BatchSession) (tr : list Event)
    (x : Stats) : Prop :=
  records_processed x =
    Ledger.records_processed sess + Z.of_nat (List.length (processed_records tr)) /\
  batches_completed x = Ledger.batches_completed sess + Z.of_nat (count_progress tr) /\
  image_total x <= Ledger.images_synced sess + Ledger.images_skipped sess + Ledger.errors sess
                   + attachments (processed_records tr) /\
  ((forall a b, exists_raises env a b = false) ->
   image_total x = Ledger.images_synced sess + Ledger.images_skipped sess + Ledger.errors sess
                   + attachments (processed_records tr)) /\
  counters (Ledger.replay sess tr) = stats_counters x.

End Accounting.
Import Accounting.

Module SyncRun.

Import Engine.

(** The effects of [SyncEngine.run_sync] that concern the run: the records
    handed to [_process_record], [runs_repo.update_run(run_id, **stats)] with
    the four counters of [stats], and [runs_repo.complete_run]. *)
Inductive RunEvent :=
| RProcessRecord (r : SrcRecord)
| RUpdateRun (records_processed images_synced images_skipped errors : Z)
| RCompleteRun (status : string) (error_log : option (list ErrEntry)).

(** [max_records and stats["records_processed"] > max_records] *)
Definition limit_reached (max_records : option Z) (n : Z) : bool :=
  match max_records with
  | Some m => (negb (m =? 0) && (n >? m))%bool
  | None => false
  end.

(** The [try: await self._process_record(...) except Exception as e: ...]
    statement of [run_sync] ([SyncEngine._process_record] is the non-dry
    attachment pipeline of [process_record]). *)
Definition record_step (env : Env) (r : SrcRecord) (st : St) : St :=
  match process_record env false r st with
  | Ok st' => st'
  | Raise m st' =>
      {| rows := rows st'; uploads := uploads st'; stats := incr_errors (stats st');
         error_log := error_log st' ++
           [{| err_record_id := Some (rec_ID r); err_field := None; err_error := m;
               err_timestamp := Some (utcnow env) |}] |}
  end.

(** The [async for record in self.zoho.fetch_records(...)] loop. *)
Fixpoint sync_loop (env : Env) (max_records : option Z) (src : list SrcRecord) (st : St)
    (ev : list RunEvent) : St * list RunEvent :=
  match src with
  | [] => (st, ev)
  | r :: rest =>
      let st := set_stats st (incr_records_processed (stats st)) in
      if limit_reached max_records (records_processed (stats st)) then (st, ev)
      else
        let st := record_step env r st in
        let s := stats st in
        let ev := ev ++ [RProcessRecord r] ++
                  (if records_processed s mod 50 =? 0
                   then [RUpdateRun (records_processed s) (images_synced s)
                                    (images_skipped s) (errors s)]
                   else []) in
        sync_loop env max_records rest st ev
  end.

(** [run_sync(max_records=..., run_id=...)] when [fetch_records] yields [src]:
    the final store (its [stats] is the returned dict) and the effects. *)
Definition run_sync (env : Env) (max_records : option Z)
    (store : list Row * list (string * bytes)) (src : list SrcRecord)
    : St * list RunEvent :=
  let st0 := {| rows := fst store; uploads := snd store;
                stats := {| records_processed := 0; images_synced := 0;
                            images_skipped := 0; errors := 0; batches_completed := 0 |};
                error_log := [] |} in
  let '(st, ev) := sync_loop env max_records src st0 [] in
  let status := if errors (stats st) =? 0 then "completed"%string
                 else "completed_with_errors"%string in
  (st, ev ++ [RCompleteRun status
                (match error_log st with [] => None | l => Some l end)]).

(** The records handed to [_process_record], in order. *)
Fixpoint handled (ev : list RunEvent) : list SrcRecord :=
  match ev with
  | [] => []
  | RProcessRecord r :: rest => r :: handled rest
  | _ :: rest => handled rest
  end.

(** The [records_processed] value of each [update_run] call, in order. *)
Fixpoint update_counts (ev : list RunEvent) : list Z :=
  match ev with
  | [] => []
  | RUpdateRun n _ _ _ :: rest => n :: update_counts rest
  | _ :: rest => update_counts rest
  end.

End SyncRun.
Import SyncRun.

(** ** JSON values and [ZohoCreatorClient.extract_image_fields] *)
Module ImageFields.

(** A value decoded by [response.json()]: [None], a bool, a number, a
    string, a list, or a dict (its items in order, with distinct keys). *)
#[warnings="-register-all"]
Inductive Json :=
| JNull
| JBool (b : bool)
| JNum (z : Z)
| JStr (s : string)
| JList (l : list Json)
| JDict (kv : list (string * Json)).

(** Python truthiness. *)
Definition truthy (v : Json) : bool :=
  match v with
  | JNull => false
  | JBool b => b
  | JNum z => negb (z =? 0)
  | JStr s => negb (String.eqb s "")
  | JList l => match l with [] => false | _ => true end
  | JDict kv => match kv with [] => false | _ => true end
  end.

(** [a or b] *)
Definition py_or (a b : Json) : Json := if truthy a then a else b.

(** [d.get(k, default)] *)
Definition get_or (d : list (string * Json)) (k : string) (default : Json) : Json :=
  match find (fun p => String.eqb (fst p) k) d with
  | Some (_, v) => v
  | None => default
  end.

(** [d.get(k)] *)
Definition get (d : list (string * Json)) (k : string) : Json := get_or d k JNull.

(** [k in d] *)
Definition has_key (d : list (string * Json)) (k : string) : bool :=
  existsb (fun p => String.eqb (fst p) k) d.

(** [pat in s] for strings. *)
Fixpoint contains (s pat : string) : bool :=
  (String.prefix pat s ||
   match s with
   | EmptyString => false
   | String _ t => contains t pat
   end)%bool.

(** [f"{i}"] for a non-negative int. *)
Fixpoint digits (fuel n : nat) (acc : string) : string :=
  match fuel with
  | O => acc
  | S f =>
      let acc := String (ascii_of_nat (48 + n mod 10)) acc in
      if Nat.ltb n 10 then acc else digits f (n / 10) acc
  end.

Definition str_of_nat (n : nat) : string := digits (S n) n "".

Definition image_url_patterns : list string :=
  ["previewengine"; "download"; "zoho.com/image"; "zoho.com/file"]%string.

Definition system_fields : list string :=
  ["ID"; "Added_Time"; "Modified_Time"; "Added_User"; "Modified_User"]%string.

(** [any(pattern in value.lower() for pattern in image_url_patterns)] *)
Definition is_image_url (value : string) : bool :=
  existsb (contains (lower value)) image_url_patterns.

(** One entry of the returned list. *)
Record Extracted := {
  x_field_name : string;
  x_download_url : Json;
  x_filename : Json
}.

Section WithHelpers.

(** [self._extract_filename_from_url(url, record_id, field_name)]: it decodes
    a base64 JSON [cli-msg] query parameter with the standard library and
    returns its [filepath], or [f"{record_id}_{field_name}"]. *)
Variable extract_filename_from_url : string -> Json -> string -> Json.
(** [str(v)] *)
Variable py_str : Json -> string.

(** [f"{record.get('ID', 'unknown')}"] *)
Definition id_text (record : list (string * Json)) : string :=
  match find (fun p => String.eqb (fst p) "ID") record with
  | Some (_, v) => py_str v
  | None => "unknown"
  end.

(** The body of [for i, item in enumerate(value)] for a list field. *)
Definition list_item (record : list (string * Json)) (field : string) (i : nat)
    (item : Json) : list Extracted :=
  let name := (field ++ "_" ++ str_of_nat i)%string in
  let fallback := JStr (id_text record ++ "_" ++ field ++ "_" ++ str_of_nat i) in
  match item with
  | JStr s =>
      if is_image_url s
      then [{| x_field_name := name; x_download_url := item; x_filename := fallback |}]
      else []
  | JDict d =>
      let item_url := py_or (py_or (get d "download_url") (get d "filepath")) (get d "url") in
      if truthy item_url
      then [{| x_field_name := name; x_download_url := item_url;
               x_filename := get_or d "filename" fallback |}]
      else []
  | _ => []
  end.

Fixpoint list_items (record : list (string * Json)) (field : string) (i : nat)
    (items : list Json) : list Extracted :=
  match items with
  | [] => []
  | item :: rest => list_item record field i item ++ list_items record field (S i) rest
  end.

(** The tail of the loop body: [if download_url: images.append({...})]. *)
Definition field_image (record : list (string * Json)) (field : string)
    (download_url filename : Json) : list Extracted :=
  if truthy download_url
  then [{| x_field_name := field; x_download_url := download_url;
           x_filename := py_or filename (JStr (id_text record ++ "_" ++ field)) |}]
  else [].

(** The body of [for field_name, value in record.items()]. *)
Definition field_images (record : list (string * Json)) (field : string) (value : Json)
    : list Extracted :=
  if existsb (String.eqb field) system_fields then []
  else
    let final := field_image record field in
    match value with
    | JStr v =>
        if is_image_url v
        then final value (extract_filename_from_url v (get record "ID") field)
        else final JNull JNull
    | JDict d =>
        let download_url :=
          py_or (py_or (get d "download_url") (get d "filepath")) (get d "url") in
        let filename := py_or (get d "filename") (get d "display_value") in
        let download_url :=
          if (negb (truthy download_url) && has_key d "file")%bool
          then get d "file" else download_url in
        final download_url filename
    | JList ((_ :: _) as items) => list_items record field 0 items
    | _ => final JNull JNull
    end.

(** [ZohoCreatorClient.extract_image_fields(record)] *)
Definition extract_image_fields (record : list (string * Json)) : list Extracted :=
  flat_map (fun p => field_images record (fst p) (snd p)) record.

End WithHelpers.

(** A record with an attachment list: a string that is no URL and a dict
    with a [url] and an empty [filename]. *)
Definition sample_record : list (string * Json) :=
  [("ID", JStr "42"); ("Photos", JList [JStr "x"; JDict [("url", JStr "https://a/b"); ("filename", JStr "")]])]%string.

End ImageFields.
Import ImageFields.

(** ** [ImageRepository.get_images] and [ImageRepository.get_count] *)
Module Query.

Local Open Scope string_scope.

(** One call on the PostgREST query builder. *)
Inductive QOp :=
| Select (columns : string)
| SelectCount (column : string)
| Contains (column : string) (value : Json)
| Eq (column : string) (value : string)
| Or (filters : string)
| Gte (column : string) (value : string)
| Lte (column : string) (value : string)
| Order (column : string) (desc : bool)
| Range (first last : Z).

(** [query = query.<op>(...)]: the builder records the call. *)
Definition then_op (query : list QOp) (op : QOp) : list QOp := query ++ [op].

(** The filter arguments shared by both methods; [None] is the default. *)
Record ImageFilters := {
  f_tags : option (list string);
  f_category : option string;
  f_job_captain_timesheet : option string;
  f_project_name : option string;
  f_department : option string;
  f_photo_origin : option string;
  f_search : option string;
  f_date_from : option string;
  f_date_to : option string
}.

(** [if x:] for an optional string. *)
Definition opt_truthy (o : option string) : bool :=
  match o with Some s => negb (String.eqb s "") | None => false end.

Definition opt_str (o : option string) : string :=
  match o with Some s => s | None => "" end.

(** [if tags:] *)
Definition tags_truthy (o : option (list string)) : bool :=
  match o with Some (_ :: _) => true | _ => false end.

Definition tags_json (o : option (list string)) : Json :=
  match o with Some l => JList (map JStr l) | None => JNull end.

(** [{k: {"display_value": v}}] *)
Definition lookup_filter (k v : string) : Json :=
  JDict [(k, JDict [("display_value"%string, JStr v)])].

Definition search_filter (search : string) : string :=
  ("original_filename.ilike.%" ++ search ++ "%,description.ilike.%" ++ search ++ "%")%string.

Definition allowed_sort_fields : list string :=
  ["zoho_created_at"; "synced_at"; "original_filename"]%string.

(** [ImageRepository.get_images(...)] as the builder calls it makes. *)
Definition get_images (f : ImageFilters) (sort_by sort_order : string) (limit offset : Z)
    : list QOp :=
  let query := [Select "*"] in
  let query := if tags_truthy (f_tags f)
               then then_op query (Contains "tags" (tags_json (f_tags f))) else query in
  let query := if opt_truthy (f_category f)
               then then_op query (Eq "category" (opt_str (f_category f))) else query in
  let query := if opt_truthy (f_job_captain_timesheet f)
               then then_op query (Contains "zoho_metadata"
                      (lookup_filter "Add_Job_Captain_Time_Sheet_Number"
                         (opt_str (f_job_captain_timesheet f)))) else query in
  let query := if opt_truthy (f_project_name f)
               then then_op query (Contains "zoho_metadata"
                      (lookup_filter "Project1" (opt_str (f_project_name f)))) else query in
  let query := if opt_truthy (f_department f)
               then then_op query (Contains "zoho_metadata"
                      (lookup_filter "Project_Department1" (opt_str (f_department f)))) else query in
  let query := if opt_truthy (f_photo_origin f)
               then then_op query (Contains "zoho_metadata"
                      (JDict [("Photo_Origin", JStr (opt_str (f_photo_origin f)))])) else query in
  let query := if opt_truthy (f_search f)
               then then_op query (Or (search_filter (opt_str (f_search f)))) else query in
  let query := if opt_truthy (f_date_from f)
               then then_op query (Gte "zoho_created_at" (opt_str (f_date_from f))) else query in
  let query := if opt_truthy (f_date_to f)
               then then_op query (Lte "zoho_created_at" (opt_str (f_date_to f))) else query in
  let sort_by := if existsb (String.eqb sort_by) allowed_sort_fields
                 then sort_by else "zoho_created_at"%string in
  let is_desc := String.eqb (lower sort_order) "desc" in
  then_op (then_op query (Order sort_by is_desc)) (Range offset (offset + limit - 1)%Z).

(** [ImageRepository.get_count(...)] as the builder calls it makes. *)
Definition get_count (f : ImageFilters) : list QOp :=
  let query := [SelectCount "id"] in
  let query := if tags_truthy (f_tags f)
               then then_op query (Contains "tags" (tags_json (f_tags f))) else query in
  let query := if opt_truthy (f_category f)
               then then_op query (Eq "category" (opt_str (f_category f))) else query in
  let query := if opt_truthy (f_job_captain_timesheet f)
               then then_op query (Contains "zoho_metadata"
                      (lookup_filter "Add_Job_Captain_Time_Sheet_Number"
                         (opt_str (f_job_captain_timesheet f)))) else query in
  let query := if opt_truthy (f_project_name f)
               then then_op query (Contains "zoho_metadata"
                      (lookup_filter "Project1" (opt_str (f_project_name f)))) else query in
  let query := if opt_truthy (f_department f)
               then then_op query (Contains "zoho_metadata"
                      (lookup_filter "Project_Department1" (opt_str (f_department f)))) else query in
  let query := if opt_truthy (f_photo_origin f)
               then then_op query (Contains "zoho_metadata"
                      (JDict [("Photo_Origin", JStr (opt_str (f_photo_origin f)))])) else query in
  let query := if opt_truthy (f_search f)
               then then_op query (Or (search_filter (opt_str (f_search f)))) else query in
  let query := if opt_truthy (f_date_from f)
               then then_op query (Gte "zoho_created_at" (opt_str (f_date_from f))) else query in
  let query := if opt_truthy (f_date_to f)
               then then_op query (Lte "zoho_created_at" (opt_str (f_date_to f))) else query in
  query.

(** The rows a [range(first, last)] call asks for. *)
Definition range_size (q : list QOp) : option Z :=
  match rev q with Range a b :: _ => Some (b - a + 1)%Z | _ => None end.

End Query.
Import Query.

(** * Theorems *)

Import Processor Samples.

(** ** Image normalizer *)

Lemma convert_keeps_size (img : PilImage) (b : bool) :
  im_loadable img = true ->
  exists img1, (if b then pil_convert_rgb img else Some img) = Some img1 /\
    im_width img1 = im_width img /\ im_height img1 = im_height img /\
    im_loadable img1 = true.
Proof.
  intro Hl. destruct b.
  - unfold pil_convert_rgb. rewrite Hl. eexists. split; [reflexivity | repeat split].
  - exists img. split; [reflexivity | repeat split; exact Hl].
Qed.

(** An image whose pixel data does not decode makes [process] raise, whatever
    branch it takes: [convert], [resize] and [save] all load the data. *)
Lemma process_unloadable (pil_open : bytes -> option PilImage)
    (pil_save_webp : PilImage -> Z -> bytes) (p : ImageProcessor) (b : bytes)
    (filename : string) (img : PilImage) :
  pil_open b = Some img -> im_loadable img = false ->
  process pil_open pil_save_webp p b filename = None.
Proof.
  intros Hopen Hl. unfold process. rewrite Hopen. cbv zeta.
  destruct (String.eqb (im_mode img) "RGBA" || String.eqb (im_mode img) "P")%bool.
  - unfold pil_convert_rgb. rewrite Hl. reflexivity.
  - destruct ((im_width img >? max_dimension p) || (im_height img >? max_dimension p))%bool.
    + destruct (new_size (max_dimension p) (im_width img) (im_height img)) as [size |];
        [| reflexivity].
      unfold pil_resize. rewrite Hl. reflexivity.
    + unfold webp_encodes. rewrite Hl. reflexivity.
Qed.

Lemma ensure_extension_png_50k (pil_open : bytes -> option PilImage) :
  ensure_extension pil_open png_50k "photo.dat" = "photo.png"%string.
Proof. vm_compute. reflexivity. Qed.

Lemma needs_processing_png_50k : needs_processing default png_50k = false.
Proof. vm_compute. reflexivity. Qed.

(** C8: a payload of at most [max_size_bytes] bytes comes back byte for byte,
    with [was_processed] false and only its filename passed through
    [_ensure_extension]; a 50 KB PNG named [photo.dat] under the default 5 MB
    threshold comes back unchanged as [photo.png]. *)
Theorem process_if_needed_below_threshold :
  (forall (pil_open : bytes -> option PilImage) (pil_save_webp : PilImage -> Z -> bytes)
          (p : ImageProcessor) (image_bytes : bytes) (filename : string),
      needs_processing p image_bytes = false ->
      process_if_needed pil_open pil_save_webp p image_bytes filename
      = Some (image_bytes, ensure_extension pil_open image_bytes filename, false)) /\
  (forall (pil_open : bytes -> option PilImage) (pil_save_webp : PilImage -> Z -> bytes),
      process_if_needed pil_open pil_save_webp default png_50k "photo.dat"
      = Some (png_50k, "photo.png"%string, false)).
Proof.
  split.
  - intros pil_open pil_save_webp p image_bytes filename H.
    unfold process_if_needed. rewrite H. reflexivity.
  - intros pil_open pil_save_webp.
    unfold process_if_needed. rewrite needs_processing_png_50k.
    rewrite ensure_extension_png_50k. reflexivity.
Qed.

Lemma process_if_needed_below_threshold_witness :
  needs_processing default png_50k = false /\
  process_if_needed (fun _ => None) (fun _ _ => []) default png_50k "photo.dat"
  = Some (png_50k, ensure_extension (fun _ => None) png_50k "photo.dat", false).
Proof.
  split.
  - vm_compute. reflexivity.
  - apply (proj1 process_if_needed_below_threshold). vm_compute. reflexivity.
Defined.

(** C9 (as the code has it): above the threshold, an image that PIL opens and
    fully decodes, wider or higher than [max_dimension], is resized to
    [(int(width * ratio), int(height * ratio))] for the one float
    [ratio = min(max_dim / width, max_dim / height)] and re-encoded as WebP
    under a [.webp] name, provided both truncated dimensions lie between 1 and
    the WebP limit 16383; when one of them truncates to 0 or below,
    [img.resize] raises [ValueError] and the exception escapes [process] and
    [process_if_needed]. *)
Theorem process_resizes_by_single_ratio
    (pil_open : bytes -> option PilImage) (pil_save_webp : PilImage -> Z -> bytes)
    (p : ImageProcessor) (image_bytes : bytes) (filename : string) (img : PilImage) :
  needs_processing p image_bytes = true ->
  pil_open image_bytes = Some img ->
  im_loadable img = true ->
  0 < im_width img -> 0 < im_height img ->
  im_width img > max_dimension p \/ im_height img > max_dimension p ->
  let md := float_of (max_dimension p) in
  let ratio := fmin (PrimFloat.div md (float_of (im_width img)))
                    (PrimFloat.div md (float_of (im_height img))) in
  let nw := int_of_float (PrimFloat.mul (float_of (im_width img)) ratio) in
  let nh := int_of_float (PrimFloat.mul (float_of (im_height img)) ratio) in
  ((0 < nw <= webp_max_dimension /\ 0 < nh <= webp_max_dimension) ->
   exists out : PilImage,
     process_if_needed pil_open pil_save_webp p image_bytes filename
     = Some (pil_save_webp out (quality p), (base_name filename ++ ".webp")%string, true) /\
     im_width out = nw /\ im_height out = nh) /\
  (nw <= 0 \/ nh <= 0 ->
   process_if_needed pil_open pil_save_webp p image_bytes filename = None).
Proof.
  intros Hneed Hopen Hl Hw Hh Hbig md ratio nw nh.
  unfold process_if_needed. rewrite Hneed.
  unfold process. rewrite Hopen. cbv zeta.
  destruct (convert_keeps_size img
              (String.eqb (im_mode img) "RGBA" || String.eqb (im_mode img) "P")%bool Hl)
    as [img1 [Ec [Ew [Eh El]]]].
  rewrite Ec, Ew, Eh.
  assert (Hc : ((im_width img >? max_dimension p) || (im_height img >? max_dimension p))%bool = true).
  { destruct Hbig as [H | H]; apply orb_true_iff; [left | right]; apply Z.gtb_lt; lia. }
  rewrite Hc.
  unfold new_size, resize_ratio, truediv.
  replace (im_width img =? 0) with false by (symmetry; apply Z.eqb_neq; lia).
  replace (im_height img =? 0) with false by (symmetry; apply Z.eqb_neq; lia).
  fold md. fold ratio. fold nw. fold nh.
  unfold pil_resize. cbn [fst snd]. rewrite El.
  split.
  - intros [[Hw1 Hw2] [Hh1 Hh2]].
    replace (0 <? nw) with true by (symmetry; apply Z.ltb_lt; lia).
    replace (0 <? nh) with true by (symmetry; apply Z.ltb_lt; lia).
    cbn [andb].
    match goal with |- context [if webp_encodes ?o then _ else _] =>
      replace (webp_encodes o) with true; [exists o; split; [reflexivity | split; reflexivity] |] end.
    unfold webp_encodes. cbn [im_loadable im_width im_height].
    symmetry. repeat rewrite andb_true_iff. repeat split;
      first [apply Z.ltb_lt; lia | apply Z.leb_le; lia | reflexivity].
  - intros Hz.
    destruct Hz as [Hz | Hz].
    + replace (0 <? nw) with false by (symmetry; apply Z.ltb_ge; lia). reflexivity.
    + replace (0 <? nh) with false by (symmetry; apply Z.ltb_ge; lia).
      rewrite andb_false_r. reflexivity.
Qed.

Lemma process_resizes_by_single_ratio_witness :
  exists out : PilImage,
    process_if_needed (fun _ => Some photo_6000x3000) (fun _ _ => []) (make 4000 85 0)
      [1; 2; 3] "IMG_0001.jpeg"
    = Some ([], "IMG_0001.webp"%string, true) /\
    im_width out = 4000 /\ im_height out = 2000.
Proof.
  destruct (process_resizes_by_single_ratio (fun _ => Some photo_6000x3000)
              (fun _ _ => []) (make 4000 85 0) [1; 2; 3] "IMG_0001.jpeg"
              photo_6000x3000) as [Hok _].
  - vm_compute. reflexivity.
  - reflexivity.
  - reflexivity.
  - vm_compute. reflexivity.
  - vm_compute. reflexivity.
  - left. vm_compute. reflexivity.
  - destruct Hok as [out [E [Ew Eh]]].
    + split; split; vm_compute; first [reflexivity | discriminate].
    + exists out. split; [exact E | split].
      * rewrite Ew. vm_compute. reflexivity.
      * rewrite Eh. vm_compute. reflexivity.
Defined.

(** C9 fails as stated: a decodable 3x49 image above the threshold with
    [max_dimension = 10] gets [new_size = (0, 10)], and [img.resize] raises
    instead of producing a scaled WebP image. *)
Lemma process_resizes_by_single_ratio_counterexample :
  new_size 10 3 49 = Some (0, 10) /\
  process_if_needed (fun _ => Some thin_3x49) (fun _ _ => []) (make 10 85 0)
    [1; 2; 3] "strip.png" = None.
Proof. split; vm_compute; reflexivity. Qed.



(** A payload one byte over the default 5 MB threshold. *)
Lemma needs_processing_5mb_plus_one :
  needs_processing default (repeat 0 (Z.to_nat 5242881)) = true.
Proof.
  unfold needs_processing, len. rewrite repeat_length, Z2Nat.id by lia.
  reflexivity.
Qed.

(** An oversized payload that [Image.open] rejects is returned with its bytes
    untouched, yet the flag reads [true]. *)
Lemma process_if_needed_flag_counterexample :
  process_if_needed (fun _ => None) (fun _ _ => []) default
    (repeat 0 (Z.to_nat 5242881)) "scan.bin"
  = Some (repeat 0 (Z.to_nat 5242881), "scan.bin"%string, true).
Proof.
  unfold process_if_needed. rewrite needs_processing_5mb_plus_one.
  unfold process. reflexivity.
Qed.

(** C10 (a code bug): [Image.open] only reads the header, and the [try] of
    [process] covers [Image.open] alone. So an oversized payload with a valid
    header whose pixel data does not decode makes [convert], [resize] or
    [save] raise, and the exception escapes [process_if_needed]. And an
    oversized payload that [Image.open] rejects is returned with its bytes
    untouched while the flag reads [true]. *)
Theorem process_if_needed_lazy_decode_raises :
  (forall (pil_open : bytes -> option PilImage) (pil_save_webp : PilImage -> Z -> bytes)
          (p : ImageProcessor) (image_bytes : bytes) (filename : string) (img : PilImage),
      needs_processing p image_bytes = true ->
      pil_open image_bytes = Some img -> im_loadable img = false ->
      process_if_needed pil_open pil_save_webp p image_bytes filename = None) /\
  process_if_needed (fun _ => None) (fun _ _ => []) default
    (repeat 0 (Z.to_nat 5242881)) "scan.bin"
  = Some (repeat 0 (Z.to_nat 5242881), "scan.bin"%string, true).
Proof.
  split.
  - intros pil_open pil_save_webp p image_bytes filename img Hneed Hopen Hl.
    unfold process_if_needed. rewrite Hneed.
    rewrite (process_unloadable pil_open pil_save_webp p image_bytes filename img Hopen Hl).
    reflexivity.
  - exact process_if_needed_flag_counterexample.
Qed.

Lemma process_if_needed_lazy_decode_raises_witness :
  needs_processing (make 4000 85 0) truncated_jpeg = true /\
  process_if_needed (fun _ => Some truncated_jpeg_header) (fun _ _ => []) (make 4000 85 0)
    truncated_jpeg "IMG_0002.jpg"%string = None.
Proof.
  split; [vm_compute; reflexivity |].
  apply (proj1 process_if_needed_lazy_decode_raises (fun _ => Some truncated_jpeg_header)
           (fun _ _ => []) (make 4000 85 0) truncated_jpeg "IMG_0002.jpg"%string truncated_jpeg_header);
    [vm_compute | |]; reflexivity.
Defined.

(** ** Batch controller *)

Import Engine Controller EngineSamples.

(** C1, evaluated: batch size 1, [date_to = 100], and a source whose first
    record was modified at 200. The filtered record is fetched but does not
    advance [record_index], so the first batch persists [current_offset = 1]
    after two records were enumerated. A pause at that boundary followed by a
    resume processes record [B] a second time: the resume skip counts every
    fetched record, the filter branch did not. *)
Theorem offset_skips_date_filtered_records :
  let sess := session 1 0 (Some 100) false in
  let src := [photo_record "A" 200 (url_of "A"); photo_record "B" 50 (url_of "B");
              photo_record "C" 50 (url_of "C")]%string in
  let run1 := run_batch_sync healthy_env sess pause_at_first_check ([], []) src in
  let sess1 := Ledger.replay sess (fst run1) in
  let run2 := run_batch_sync healthy_env sess1 no_signals
                (rows (snd run1), uploads (snd run1)) src in
  progress_offsets (fst run1) = [1] /\
  fetched_at_progress 0 (fst run1) = [2] /\
  Ledger.status sess1 = Paused /\ Ledger.current_offset sess1 = 1 /\
  map rec_ID (processed_records (fst run1)) = ["B"%string] /\
  map rec_ID (processed_records (fst run2)) = ["B"; "C"]%string.
Proof. vm_compute. repeat split. Qed.

(** C5, evaluated: the error entry written for an attachment whose URL is not
    http(s) has [record_id], [field] and [error] but no [timestamp], while the
    record-level entry (here for a failing existence check) has one. *)
Theorem attachment_error_entry_has_no_timestamp :
  let sess := session 1 0 None false in
  let bad := photo_record "R1" 10 "ftp://files.example/a.jpg" in
  let run1 := run_batch_sync healthy_env sess no_signals ([], []) [bad] in
  let env2 := {| exists_raises := fun _ _ => true;
                 download_image := download_image healthy_env;
                 process_if_needed := process_if_needed healthy_env;
                 upload_raises := upload_raises healthy_env;
                 utcnow := utcnow healthy_env |} in
  let run2 := run_batch_sync env2 sess no_signals ([], []) [photo_record "R2" 10 (url_of "R2")] in
  Ledger.error_log (Ledger.replay sess (fst run1)) =
    [{| err_record_id := Some "R1"%string; err_field := Some "Photo"%string;
        err_error := "Invalid URL: ftp://files.example/a.jpg"%string;
        err_timestamp := None |}] /\
  Ledger.errors (Ledger.replay sess (fst run1)) = 1 /\
  Ledger.error_log (Ledger.replay sess (fst run2)) =
    [{| err_record_id := Some "R2"%string; err_field := None;
        err_error := "image_exists failed"%string;
        err_timestamp := Some 1700000000 |}].
Proof. vm_compute. repeat split. Qed.

Import Measures.

(** ** Idempotent attachment sync *)

Lemma image_exists_count_key (rs : list Row) (rid field : string) :
  image_exists rs rid field = false -> count_key rs rid field = O.
Proof.
  unfold image_exists, count_key. induction rs as [| r rs IH]; simpl; [reflexivity |].
  intro H. apply orb_false_iff in H as [H1 H2]. rewrite H1. exact (IH H2).
Qed.

Lemma count_key_positive (rs : list Row) (rid field : string) :
  (1 <= count_key rs rid field)%nat -> image_exists rs rid field = true.
Proof.
  unfold image_exists, count_key. induction rs as [| r rs IH]; simpl; [lia |].
  destruct ((zoho_record_id r =? rid)%string && (row_field_name r =? field)%string)%bool;
    simpl; [reflexivity | exact IH].
Qed.

Lemma image_exists_count_pos (rs : list Row) (rid field : string) :
  image_exists rs rid field = true -> (1 <= count_key rs rid field)%nat.
Proof.
  unfold image_exists, count_key. induction rs as [| r rs IH]; simpl; [discriminate |].
  destruct ((zoho_record_id r =? rid)%string && (row_field_name r =? field)%string)%bool;
    simpl; [lia | exact IH].
Qed.

Lemma count_key_app (a b : list Row) (rid field : string) :
  count_key (a ++ b) rid field = (count_key a rid field + count_key b rid field)%nat.
Proof. unfold count_key. rewrite filter_app, length_app. reflexivity. Qed.

Lemma sync_image_existing (env : Env) (dry_run : bool) (r : SrcRecord) (img : ImgInfo)
    (st : St) :
  exists_raises env (rec_ID r) (field_name img) = false ->
  image_exists (rows st) (rec_ID r) (field_name img) = true ->
  sync_image env dry_run r st img = Ok (set_stats st (incr_images_skipped (stats st))).
Proof. intros H1 H2. unfold sync_image. rewrite H1, H2. reflexivity. Qed.

(** C4 (as the code has it): once the first run of the attachment pipeline on
    [(record id, field name)] leaves a row for it (the row was there, or a
    real run synced it), the pair has exactly one row and a second run,
    dry or not, only increments [images_skipped]: no upload, no row write,
    [images_synced] unchanged. *)
Theorem sync_image_twice_skips (env : Env) (dry1 dry2 : bool) (r : SrcRecord)
    (img : ImgInfo) (st st1 : St) :
  exists_raises env (rec_ID r) (field_name img) = false ->
  (count_key (rows st) (rec_ID r) (field_name img) <= 1)%nat ->
  sync_image env dry1 r st img = Ok st1 ->
  image_exists (rows st) (rec_ID r) (field_name img) = true \/
  (dry1 = false /\ images_synced (stats st1) = images_synced (stats st) + 1) ->
  count_key (rows st1) (rec_ID r) (field_name img) = 1%nat /\
  sync_image env dry2 r st1 img = Ok (set_stats st1 (incr_images_skipped (stats st1))).
Proof.
  intros Hraise Hle Hrun Hcase.
  assert (Hcount : count_key (rows st1) (rec_ID r) (field_name img) = 1%nat).
  { destruct (image_exists (rows st) (rec_ID r) (field_name img)) eqn:Hex.
    - rewrite sync_image_existing in Hrun by assumption.
      inversion Hrun; subst; simpl.
      destruct (count_key (rows st) (rec_ID r) (field_name img)) as [| [|]] eqn:E;
        [ | reflexivity | lia].
      pose proof (image_exists_count_pos _ _ _ Hex) as P. lia.
    - destruct Hcase as [Hc | [Hd Hs]]; [discriminate |]. subst dry1.
      pose proof (image_exists_count_key _ _ _ Hex) as Z0.
      unfold sync_image in Hrun. rewrite Hraise, Hex in Hrun. simpl in Hrun.
      destruct (url_ok (download_url img)); simpl in Hrun;
        [| inversion Hrun; subst; simpl in Hs; lia].
      destruct (download_image env (download_url img)) as [b |];
        [| inversion Hrun; subst; simpl in Hs; lia].
      destruct (process_if_needed env b (filename img)) as [[[pb fn] wp] |];
        [| inversion Hrun; subst; simpl in Hs; lia].
      destruct (upload_raises env (storage_path_of r fn));
        [inversion Hrun; subst; simpl in Hs; lia |].
      inversion Hrun; subst; simpl.
      unfold upsert_image; simpl. rewrite Hex.
      rewrite count_key_app, Z0. unfold count_key; simpl.
      rewrite !String.eqb_refl. reflexivity. }
  split; [exact Hcount |].
  apply sync_image_existing; [exact Hraise |].
  apply count_key_positive. lia.
Qed.

Lemma sync_image_twice_skips_witness :
  let r := photo_record "R1" 10 (url_of "R1") in
  let img := {| field_name := "Photo"%string; download_url := url_of "R1";
                filename := "R1_Photo.jpg"%string |} in
  let st := {| rows := []; uploads := [];
               stats := {| records_processed := 0; images_synced := 0;
                           images_skipped := 0; errors := 0; batches_completed := 0 |};
               error_log := [] |} in
  exists st1,
    exists_raises healthy_env (rec_ID r) (field_name img) = false /\
    (count_key (rows st) (rec_ID r) (field_name img) <= 1)%nat /\
    sync_image healthy_env false r st img = Ok st1 /\
    (image_exists (rows st) (rec_ID r) (field_name img) = true \/
     (false = false /\ images_synced (stats st1) = images_synced (stats st) + 1)) /\
    count_key (rows st1) (rec_ID r) (field_name img) = 1%nat /\
    sync_image healthy_env false r st1 img
    = Ok (set_stats st1 (incr_images_skipped (stats st1))).
Proof.
  intros r img st.
  destruct (sync_image healthy_env false r st img) as [st1 | m st1] eqn:E;
    [| vm_compute in E; discriminate].
  exists st1.
  assert (Hs : images_synced (stats st1) = images_synced (stats st) + 1)
    by (vm_compute in E; inversion E; reflexivity).
  assert (H1 : exists_raises healthy_env (rec_ID r) (field_name img) = false) by reflexivity.
  assert (H2 : (count_key (rows st) (rec_ID r) (field_name img) <= 1)%nat)
    by (vm_compute; lia).
  destruct (sync_image_twice_skips healthy_env false false r img st st1 H1 H2 E
              (or_intror (conj eq_refl Hs))) as [C S].
  repeat split; try assumption. right. split; [reflexivity | exact Hs].
Defined.

(** C4 fails as stated: when the download of the attachment fails, two runs
    leave no row for the pair, and the second run counts an error, not a
    skip. *)
Lemma sync_image_twice_counterexample :
  let env := {| exists_raises := fun _ _ => false; download_image := fun _ => None;
                process_if_needed := process_if_needed healthy_env;
                upload_raises := fun _ => false; utcnow := 0 |} in
  let r := photo_record "R1" 10 (url_of "R1") in
  let st := {| rows := []; uploads := [];
               stats := {| records_processed := 0; images_synced := 0;
                           images_skipped := 0; errors := 0; batches_completed := 0 |};
               error_log := [] |} in
  match process_record env false r st with
  | Ok st1 =>
      match process_record env false r st1 with
      | Ok st2 => rows st2 = [] /\ images_skipped (stats st2) = 0 /\
                  images_synced (stats st2) = 0 /\ errors (stats st2) = 2
      | Raise _ _ => False
      end
  | Raise _ _ => False
  end.
Proof. vm_compute. repeat split. Qed.

(** ** Remote record source *)

Import Client.

(** C7, evaluated: a [503] on the first page, or a network error on the
    second page, ends [fetch_records] with the exception after that single
    request: no retry and no backoff sleep ([with_retry] is never applied to
    [_make_request] or [fetch_records]). A [429] is the only answer retried. *)
Theorem fetch_records_no_retry :
  fetch_records 10 (fun _ _ => RStatus 503)
  = {| yielded := []; requests := 1%nat; sleeps := [];
       outcome := Raised (HTTPStatusError 503) |} /\
  fetch_records 10 (fun n _ => match n with
                               | O => RData [photo_record "1" 10 (url_of "1")]
                               | _ => RNetError end)
  = {| yielded := [photo_record "1" 10 (url_of "1")]; requests := 2%nat; sleeps := [];
       outcome := Raised RequestError |} /\
  fetch_records 10 (fun n _ => match n with
                               | O => RStatus 429
                               | _ => RData [] end)
  = {| yielded := []; requests := 2%nat; sleeps := [60]; outcome := Exhausted |}.
Proof. vm_compute. repeat split. Qed.

(** ** Shape of the controller's effects *)

Lemma processed_records_app (a b : list Event) :
  processed_records (a ++ b) = processed_records a ++ processed_records b.
Proof.
  induction a as [| e a IH]; [reflexivity |].
  destruct e; simpl; rewrite ?IH; reflexivity.
Qed.

Lemma count_progress_app (a b : list Event) :
  count_progress (a ++ b) = (count_progress a + count_progress b)%nat.
Proof.
  induction a as [| e a IH]; [reflexivity |].
  destruct e; simpl; rewrite ?IH; reflexivity.
Qed.

Lemma processed_records_batch (recs : list SrcRecord) :
  processed_records (EvBatchStarted :: map EvProcessRecord recs) = recs.
Proof. induction recs as [| r recs IH]; simpl in *; [reflexivity | rewrite IH; reflexivity]. Qed.

Lemma count_progress_batch (recs : list SrcRecord) :
  count_progress (EvBatchStarted :: map EvProcessRecord recs) = O.
Proof. induction recs as [| r recs IH]; simpl in *; [reflexivity | exact IH]. Qed.

Lemma no_status_batch (recs : list SrcRecord) :
  no_status (EvBatchStarted :: map EvProcessRecord recs).
Proof.
  constructor; [reflexivity |]. induction recs; simpl; constructor; auto.
Qed.

Lemma no_status_app (a b : list Event) : no_status a -> no_status b -> no_status (a ++ b).
Proof. unfold no_status. intros. apply Forall_app. auto. Qed.

Lemma process_batch_events (env : Env) (d : bool) (recs : list SrcRecord) (st : St) :
  snd (process_batch env d recs st) = EvBatchStarted :: map EvProcessRecord recs.
Proof. reflexivity. Qed.

Ltac no_status_tac :=
  unfold no_status in *;
  repeat first
    [ assumption
    | apply Forall_app; split
    | apply Forall_cons; [reflexivity |]
    | apply Forall_nil
    | apply Forall_forall; intros ?e ?Hin; apply in_map_iff in Hin as [? [<- _]];
      reflexivity ].

Section Shapes.

Variable env : Env.
Variable sess : Ledger.BatchSession.
Variable signals : Signals.

Lemma full_batch_stop (l l' : Loop) :
  full_batch env sess signals l = inl l' ->
  exists u mid s,
    trace l' = trace l ++ (EvBatchStarted :: map EvProcessRecord (batch_records l)) ++
               [EvProgress u] ++ mid ++ [EvSetStatus s] /\
    flush_shape mid /\
    p_current_offset u = record_index l /\
    ((s = Cancelled /\ fst (signals (checks l)) = true) \/
     (s = Paused /\ signals (checks l) = (false, true))) /\
    batch_records l' = [] /\ record_index l' = record_index l.
Proof.
  unfold full_batch. rewrite surjective_pairing with (p := process_batch _ _ _ _).
  rewrite process_batch_events.
  set (st := fst (process_batch env (Ledger.dry_run sess) (batch_records l) (lst l))).
  set (st1 := set_stats st (incr_batches_completed (stats st))).
  set (u := progress_of (record_index l) (stats st1)).
  destruct (signals (checks l)) as [c p] eqn:Hs.
  destruct (error_log st1) as [| e es] eqn:He; simpl;
    (destruct c; [| destruct p]); intro H; inversion H; subst; clear H; simpl.
  all: exists u.
  all: first [exists [EvAppendErrors (e :: es)] | exists []].
  all: first [exists Cancelled; split; [simpl; repeat (rewrite <- List.app_assoc; simpl);
                                        reflexivity |]
            | exists Paused; split; [simpl; repeat (rewrite <- List.app_assoc; simpl);
                                     reflexivity |]].
  all: split; [unfold flush_shape; first [left; reflexivity | right; eexists; reflexivity] |].
  all: split; [reflexivity |].
  all: split; [first [left; split; reflexivity | right; split; reflexivity] |].
  all: split; reflexivity.
Qed.

Lemma full_batch_go (l l' : Loop) :
  full_batch env sess signals l = inr l' ->
  exists mid,
    trace l' = trace l ++ (EvBatchStarted :: map EvProcessRecord (batch_records l)) ++
               [EvProgress (progress_of (record_index l)
                  (incr_batches_completed
                     (stats (fst (process_batch env (Ledger.dry_run sess)
                                    (batch_records l) (lst l))))))] ++ mid /\
    no_status mid /\ count_progress mid = O /\
    checks l' = S (checks l) /\ batch_records l' = [] /\
    record_index l' = record_index l /\ signals (checks l) = (false, false).
Proof.
  unfold full_batch. rewrite surjective_pairing with (p := process_batch _ _ _ _).
  rewrite process_batch_events.
  set (st := fst (process_batch env (Ledger.dry_run sess) (batch_records l) (lst l))).
  destruct (signals (checks l)) as [c p] eqn:Hs.
  destruct (error_log (set_stats st (incr_batches_completed (stats st)))) as [| e es] eqn:He;
    simpl; (destruct c; [| destruct p]); intro H; inversion H; subst; clear H; simpl.
  all: set (sl := if Ledger.delay_between_batches sess >? 0
                  then [EvSleep (Ledger.delay_between_batches sess)] else []).
  all: assert (Hsl : no_status sl /\ count_progress sl = O)
         by (unfold sl; destruct (_ >? _); repeat constructor).
  all: destruct Hsl as [Hsl1 Hsl2].
  - exists sl. repeat split; auto.
    simpl. repeat (rewrite <- List.app_assoc; simpl). reflexivity.
  - exists (EvAppendErrors (e :: es) :: sl). repeat split; auto.
    + simpl. repeat (rewrite <- List.app_assoc; simpl). reflexivity.
    + constructor; [reflexivity | exact Hsl1].
Qed.

Lemma step_go (l l' : Loop) (r : SrcRecord) :
  step env sess signals l r = inr l' ->
  exists ev, trace l' = trace l ++ ev /\ no_status ev /\
             checks l' = (checks l + count_progress ev)%nat.
Proof.
  unfold step; simpl.
  destruct (record_index l <? Ledger.current_offset sess).
  { intro H; inversion H; subst; simpl. exists [EvFetched r].
    repeat split; [repeat constructor | simpl; lia]. }
  destruct (date_filtered (Ledger.date_to sess) r).
  { intro H; inversion H; subst; simpl. exists [EvFetched r].
    repeat split; [repeat constructor | simpl; lia]. }
  match goal with |- context [if ?c then full_batch _ _ _ ?l0 else _] =>
    set (lb := l0); destruct c end.
  - intro H. destruct (full_batch_go lb l' H) as [mid [Ht [Hm [Hc [Hck _]]]]].
    rewrite Ht. subst lb. cbn [trace batch_records record_index lst checks].
    rewrite <- List.app_assoc.
    eexists. split; [reflexivity |]. split.
    + no_status_tac.
    + rewrite Hck. cbn [checks].
      rewrite !count_progress_app, count_progress_batch. cbn [count_progress].
      rewrite Hc. lia.
  - intro H; inversion H; subst; simpl. exists [EvFetched r].
    repeat split; [repeat constructor | simpl; lia].
Qed.

Lemma step_stop (l l' : Loop) (r : SrcRecord) :
  step env sess signals l r = inl l' ->
  exists ev recs u mid s,
    trace l' = trace l ++ ev ++ (EvBatchStarted :: map EvProcessRecord recs) ++
               [EvProgress u] ++ mid ++ [EvSetStatus s] /\
    recs <> [] /\ no_status ev /\ count_progress ev = O /\ flush_shape mid /\
    ((s = Cancelled /\ fst (signals (checks l)) = true) \/
     (s = Paused /\ signals (checks l) = (false, true))).
Proof.
  unfold step; simpl.
  destruct (record_index l <? Ledger.current_offset sess); [discriminate |].
  destruct (date_filtered (Ledger.date_to sess) r); [discriminate |].
  match goal with |- context [if ?c then full_batch _ _ _ ?l0 else _] =>
    set (lb := l0); destruct c end; [| discriminate].
  intro H. destruct (full_batch_stop lb l' H) as [u [mid [s [Ht [Hm [_ [Hs _]]]]]]].
  exists [EvFetched r], (batch_records lb), u, mid, s.
  rewrite Ht. subst lb. cbn [trace batch_records record_index lst checks].
  repeat split; auto.
  - repeat (rewrite <- List.app_assoc; simpl). reflexivity.
  - intro E. apply app_eq_nil in E as [_ E]. discriminate.
  - apply Forall_cons; [reflexivity | apply Forall_nil].
Qed.

Lemma run_loop_go (src : list SrcRecord) (l l' : Loop) :
  run_loop env sess signals src l = inr l' ->
  exists ev, trace l' = trace l ++ ev /\ no_status ev /\
             checks l' = (checks l + count_progress ev)%nat.
Proof.
  revert l. induction src as [| r src IH]; intros l H; simpl in H.
  - inversion H; subst. exists []. rewrite app_nil_r.
    split; [reflexivity | split; [apply Forall_nil | simpl; lia]].
  - destruct (step env sess signals l r) as [l1 | l1] eqn:Hs; [discriminate |].
    destruct (step_go l l1 r Hs) as [ev1 [T1 [N1 C1]]].
    destruct (IH l1 H) as [ev2 [T2 [N2 C2]]].
    exists (ev1 ++ ev2). rewrite T2, T1, List.app_assoc. repeat split.
    + apply no_status_app; assumption.
    + rewrite C2, C1, count_progress_app. lia.
Qed.

Lemma run_loop_stop (src : list SrcRecord) (l l' : Loop) :
  run_loop env sess signals src l = inl l' ->
  exists ev recs u mid s,
    trace l' = trace l ++ ev ++ (EvBatchStarted :: map EvProcessRecord recs) ++
               [EvProgress u] ++ mid ++ [EvSetStatus s] /\
    recs <> [] /\ no_status ev /\ flush_shape mid /\
    ((s = Cancelled /\ fst (signals (checks l + count_progress ev)%nat) = true) \/
     (s = Paused /\ signals (checks l + count_progress ev)%nat = (false, true))).
Proof.
  revert l. induction src as [| r src IH]; intros l H; simpl in H; [discriminate |].
  destruct (step env sess signals l r) as [l1 | l1] eqn:Hs.
  - inversion H; subst.
    destruct (step_stop l l' r Hs) as [ev [recs [u [mid [s [T [R [N [C [F S]]]]]]]]]].
    exists ev, recs, u, mid, s. rewrite C, Nat.add_0_r. auto.
  - destruct (step_go l l1 r Hs) as [ev1 [T1 [N1 C1]]].
    destruct (IH l1 H) as [ev [recs [u [mid [s [T [R [N [F S]]]]]]]]].
    exists (ev1 ++ ev), recs, u, mid, s. rewrite T, T1. repeat split.
    + rewrite <- !List.app_assoc. reflexivity.
    + exact R.
    + apply no_status_app; assumption.
    + exact F.
    + rewrite count_progress_app, Nat.add_assoc, <- C1. exact S.
Qed.

Lemma finish_shape (l : Loop) :
  exists ev f,
    fst (finish env sess l) = trace l ++ ev ++ [EvSetStatus f; EvClearRequests] /\
    no_status ev /\ (f = Completed \/ f = CompletedWithErrors).
Proof.
  unfold finish.
  destruct (batch_records l) as [| r0 recs] eqn:Hb.
  - exists []. simpl. eexists. split; [reflexivity | split; [apply Forall_nil |]].
    destruct (_ =? 0); [left | right]; reflexivity.
  - rewrite surjective_pairing with (p := process_batch _ _ _ _).
    rewrite process_batch_events.
    set (st := set_stats _ _).
    set (pe := EvProgress _).
    destruct (error_log st) as [| e es]; cbn [fst snd].
    + exists ((EvBatchStarted :: map EvProcessRecord (r0 :: recs)) ++ [pe]).
      eexists. split; [rewrite <- !List.app_assoc; reflexivity |].
      split; [no_status_tac; reflexivity |]. destruct (_ =? 0); [left | right]; reflexivity.
    + exists ((EvBatchStarted :: map EvProcessRecord (r0 :: recs)) ++ [pe; EvAppendErrors (e :: es)]).
      eexists. split; [rewrite <- !List.app_assoc; reflexivity |].
      split; [no_status_tac; reflexivity |]. destruct (_ =? 0); [left | right]; reflexivity.
Qed.

End Shapes.

Lemma replay_app (s : Ledger.BatchSession) (a b : list Event) :
  Ledger.replay s (a ++ b) = Ledger.replay (Ledger.replay s a) b.
Proof. unfold Ledger.replay. apply fold_left_app. Qed.

Lemma not_in_no_status (ev : list Event) (s : Status) :
  no_status ev -> ~ In (EvSetStatus s) ev.
Proof.
  unfold no_status. intros H Hin. rewrite Forall_forall in H.
  specialize (H _ Hin). discriminate.
Qed.

Lemma not_in_flush (mid : list Event) (s : Status) :
  flush_shape mid -> ~ In (EvSetStatus s) mid.
Proof.
  intros [-> | [es ->]]; simpl; intuition discriminate.
Qed.

Lemma replay_stop_tail (s : Ledger.BatchSession) (u : Progress) (mid : list Event)
    (st : Status) :
  flush_shape mid ->
  Ledger.current_offset (Ledger.replay s ([EvProgress u] ++ mid ++ [EvSetStatus st; EvClearRequests]))
    = p_current_offset u /\
  Ledger.status (Ledger.replay s ([EvProgress u] ++ mid ++ [EvSetStatus st; EvClearRequests]))
    = st.
Proof. intros [-> | [es ->]]; split; reflexivity. Qed.

(** A [paused] or [cancelled] status is only ever written right after a
    batch was handled in full and its progress row was written (with at most
    the flush of its error entries in between); the status write is the last
    write of the run, it is [cancelled] exactly when the cancel flag was seen
    at that batch boundary (and [paused] when only the pause flag was), and
    the persisted [current_offset] is the one of that progress write. *)
Lemma status_write_at_boundary (env : Env) (sess : Ledger.BatchSession)
    (signals : Signals) (store : list Row * list (string * bytes))
    (src : list SrcRecord) (s : Status) :
  let tr := fst (run_batch_sync env sess signals store src) in
  In (EvSetStatus s) tr -> (s = Paused \/ s = Cancelled) ->
  exists pre recs u mid,
    tr = pre ++ (EvBatchStarted :: map EvProcessRecord recs) ++
         [EvProgress u] ++ mid ++ [EvSetStatus s; EvClearRequests] /\
    recs <> [] /\ flush_shape mid /\
    ((s = Cancelled /\ fst (signals (count_progress pre)) = true) \/
     (s = Paused /\ signals (count_progress pre) = (false, true))) /\
    Ledger.current_offset (Ledger.replay sess tr) = p_current_offset u /\
    Ledger.status (Ledger.replay sess tr) = s.
Proof.
  intros tr Hin Hs. subst tr. unfold run_batch_sync in *.
  destruct (run_loop env sess signals src _) as [l | l] eqn:Hr; cbn [fst] in *.
  - destruct (run_loop_stop env sess signals src _ l Hr)
      as [ev [recs [u [mid [s' [T [R [N [F S]]]]]]]]].
    cbn [trace checks] in T, S.
    assert (s' = s) as <-.
    { rewrite T in Hin. repeat rewrite in_app_iff in Hin. simpl in Hin.
      repeat destruct Hin as [Hin | Hin];
        solve [ discriminate | contradiction
              | inversion Hin; subst; destruct Hs; discriminate
              | exfalso; exact (not_in_no_status _ _ N Hin)
              | apply in_map_iff in Hin as [? [E _]]; discriminate
              | exfalso; exact (not_in_flush _ _ F Hin)
              | inversion Hin; reflexivity ]. }
    exists ([EvClearRequests; EvSetStatus Running] ++ ev), recs, u, mid.
    assert (Htr : trace l ++ [EvClearRequests] =
                  ([EvClearRequests; EvSetStatus Running] ++ ev) ++
                  (EvBatchStarted :: map EvProcessRecord recs) ++
                  [EvProgress u] ++ mid ++ [EvSetStatus s'; EvClearRequests]).
    { rewrite T. rewrite <- !List.app_assoc. reflexivity. }
    rewrite Htr. split; [reflexivity |]. split; [exact R |]. split; [exact F |].
    split.
    + rewrite count_progress_app. exact S.
    + rewrite (List.app_assoc _ (EvBatchStarted :: _)), replay_app.
      exact (replay_stop_tail _ u mid s' F).
  - exfalso.
    destruct (run_loop_go env sess signals src _ l Hr) as [ev [T [N _]]].
    destruct (finish_shape env sess l) as [ev' [f [T' [N' Hf]]]].
    rewrite T', T in Hin. cbn [trace] in Hin.
    repeat rewrite in_app_iff in Hin. simpl in Hin.
    repeat destruct Hin as [Hin | Hin];
      solve [ discriminate | contradiction
            | inversion Hin; subst; destruct Hs; discriminate
            | exact (not_in_no_status _ _ N Hin)
            | exact (not_in_no_status _ _ N' Hin)
            | inversion Hin; subst; destruct Hs, Hf; congruence ].
Qed.

Lemma run_batch_sync_start (env : Env) (sess : Ledger.BatchSession) (signals : Signals)
    (store : list Row * list (string * bytes)) (src : list SrcRecord) :
  run_batch_sync env sess signals store src =
  match run_loop env sess signals src (loop_start sess store) with
  | inl l => (trace l ++ [EvClearRequests], lst l)
  | inr l => finish env sess l
  end.
Proof. reflexivity. Qed.

Lemma run_loop_app (env : Env) (sess : Ledger.BatchSession) (signals : Signals)
    (a b : list SrcRecord) (l : Loop) :
  run_loop env sess signals (a ++ b) l =
  match run_loop env sess signals a l with
  | inl l' => inl l'
  | inr l' => run_loop env sess signals b l'
  end.
Proof.
  revert l. induction a as [| r a IH]; intro l; [reflexivity |].
  simpl. destruct (step env sess signals l r); [reflexivity | apply IH].
Qed.

Lemma step_fills_batch (env : Env) (sess : Ledger.BatchSession) (signals : Signals)
    (l : Loop) (r : SrcRecord) :
  Ledger.current_offset sess <= record_index l ->
  date_filtered (Ledger.date_to sess) r = false ->
  Ledger.batch_size sess <= Z.of_nat (List.length (batch_records l)) + 1 ->
  step env sess signals l r =
  full_batch env sess signals
    {| batch_records := batch_records l ++ [r]; record_index := record_index l + 1;
       lst := lst l; checks := checks l; trace := trace l ++ [EvFetched r] |}.
Proof.
  intros Ho Hd Hb. unfold step. cbn [record_index batch_records trace lst checks with_trace].
  replace (record_index l <? Ledger.current_offset sess) with false
    by (symmetry; apply Z.ltb_ge; lia).
  rewrite Hd.
  replace (Z.of_nat (List.length (batch_records l ++ [r])) >=? Ledger.batch_size sess)
    with true.
  - reflexivity.
  - symmetry. rewrite length_app. simpl. apply Z.geb_le. lia.
Qed.


Lemma cancel_observed_stops (env : Env) (sess : Ledger.BatchSession)
    (signals : Signals) (store : list Row * list (string * bytes))
    (src_pre : list SrcRecord) (r : SrcRecord) (rest : list SrcRecord) (l : Loop) :
  run_loop env sess signals src_pre (loop_start sess store) = inr l ->
  Ledger.current_offset sess <= record_index l ->
  date_filtered (Ledger.date_to sess) r = false ->
  Ledger.batch_size sess <= Z.of_nat (List.length (batch_records l)) + 1 ->
  fst (signals (checks l)) = true ->
  let tr := fst (run_batch_sync env sess signals store (src_pre ++ r :: rest)) in
  exists u mid,
    tr = trace l ++ [EvFetched r] ++
         (EvBatchStarted :: map EvProcessRecord (batch_records l ++ [r])) ++
         [EvProgress u] ++ mid ++ [EvSetStatus Cancelled; EvClearRequests] /\
    flush_shape mid /\
    p_current_offset u = record_index l + 1 /\
    Ledger.current_offset (Ledger.replay sess tr) = p_current_offset u /\
    Ledger.status (Ledger.replay sess tr) = Cancelled.
Proof.
  intros Hl Ho Hd Hb Hc tr. subst tr.
  rewrite run_batch_sync_start, run_loop_app, Hl.
  cbn [run_loop]. rewrite (step_fills_batch env sess signals l r Ho Hd Hb).
  set (lb := {| batch_records := batch_records l ++ [r]; record_index := record_index l + 1;
                lst := lst l; checks := checks l; trace := trace l ++ [EvFetched r] |}).
  destruct (full_batch env sess signals lb) as [l' | l'] eqn:Hf.
  - destruct (full_batch_stop env sess signals lb l' Hf)
      as [u [mid [s [T [F [O [S _]]]]]]].
    assert (s = Cancelled) as ->.
    { destruct S as [[-> _] | [_ E]]; [reflexivity |].
      subst lb. cbn [checks] in E. rewrite E in Hc. discriminate. }
    exists u, mid. cbn [fst].
    assert (Htr : trace l' ++ [EvClearRequests] =
      trace l ++ [EvFetched r] ++
      (EvBatchStarted :: map EvProcessRecord (batch_records l ++ [r])) ++
      [EvProgress u] ++ mid ++ [EvSetStatus Cancelled; EvClearRequests]).
    { rewrite T. subst lb. cbn [trace batch_records]. rewrite <- !List.app_assoc. reflexivity. }
    rewrite Htr. split; [reflexivity |]. split; [exact F |]. split.
    + rewrite O. reflexivity.
    + match goal with |- context [Ledger.replay sess ?t] =>
        replace t with ((trace l ++ [EvFetched r] ++
                         (EvBatchStarted :: map EvProcessRecord (batch_records l ++ [r]))) ++
                        ([EvProgress u] ++ mid ++ [EvSetStatus Cancelled; EvClearRequests]))
          by (rewrite <- !List.app_assoc; reflexivity) end.
      rewrite replay_app. exact (replay_stop_tail _ u mid Cancelled F).
  - exfalso. destruct (full_batch_go env sess signals lb l' Hf)
      as [mid [_ [_ [_ [_ [_ [_ E]]]]]]].
    subst lb. cbn [checks] in E. rewrite E in Hc. discriminate.
Qed.

(** C3: (1) a [paused] or [cancelled] status is only ever written right
    after a full batch was handled and its progress row written (with at most
    the flush of its error entries in between), as the last write of the run,
    [cancelled] exactly when the cancel flag was read at that boundary, and
    the persisted [current_offset] is the one of that progress write;
    (2) conversely, when the loop, running after the records [src_pre], fills
    a batch with record [r] and the check after its progress write reads the
    cancel flag, the run writes [cancelled] and returns: nothing of [rest] is
    fetched or processed, and the session row keeps the [current_offset] of
    that progress write, with status [cancelled]. *)
Theorem pause_cancel_only_at_batch_boundary (env : Env) (sess : Ledger.BatchSession)
    (signals : Signals) (store : list Row * list (string * bytes)) :
  (forall (src : list SrcRecord) (s : Status),
     let tr := fst (run_batch_sync env sess signals store src) in
     In (EvSetStatus s) tr -> (s = Paused \/ s = Cancelled) ->
     exists pre recs u mid,
       tr = pre ++ (EvBatchStarted :: map EvProcessRecord recs) ++
            [EvProgress u] ++ mid ++ [EvSetStatus s; EvClearRequests] /\
       recs <> [] /\ flush_shape mid /\
       ((s = Cancelled /\ fst (signals (count_progress pre)) = true) \/
        (s = Paused /\ signals (count_progress pre) = (false, true))) /\
       Ledger.current_offset (Ledger.replay sess tr) = p_current_offset u /\
       Ledger.status (Ledger.replay sess tr) = s) /\
  (forall (src_pre : list SrcRecord) (r : SrcRecord) (rest : list SrcRecord) (l : Loop),
     run_loop env sess signals src_pre (loop_start sess store) = inr l ->
     Ledger.current_offset sess <= record_index l ->
     date_filtered (Ledger.date_to sess) r = false ->
     Ledger.batch_size sess <= Z.of_nat (List.length (batch_records l)) + 1 ->
     fst (signals (checks l)) = true ->
     let tr := fst (run_batch_sync env sess signals store (src_pre ++ r :: rest)) in
     exists u mid,
       tr = trace l ++ [EvFetched r] ++
            (EvBatchStarted :: map EvProcessRecord (batch_records l ++ [r])) ++
            [EvProgress u] ++ mid ++ [EvSetStatus Cancelled; EvClearRequests] /\
       flush_shape mid /\
       p_current_offset u = record_index l + 1 /\
       Ledger.current_offset (Ledger.replay sess tr) = p_current_offset u /\
       Ledger.status (Ledger.replay sess tr) = Cancelled).
Proof.
  split.
  - intros src s. exact (status_write_at_boundary env sess signals store src s).
  - intros src_pre r rest l. exact (cancel_observed_stops env sess signals store src_pre r rest l).
Qed.

(** An instance of C3: the cancel flag set before the first batch boundary of
    a five-record run in batches of two. *)
Lemma pause_cancel_only_at_batch_boundary_witness :
  let tr := fst (run_batch_sync healthy_env (session 2 0 None false)
                   cancel_at_first_check ([], []) five_records) in
  (In (EvSetStatus Cancelled) tr /\
   exists pre recs u mid,
     tr = pre ++ (EvBatchStarted :: map EvProcessRecord recs) ++
          [EvProgress u] ++ mid ++ [EvSetStatus Cancelled; EvClearRequests] /\
     recs <> [] /\ flush_shape mid /\
     ((Cancelled = Cancelled /\ fst (cancel_at_first_check (count_progress pre)) = true) \/
      (Cancelled = Paused /\ cancel_at_first_check (count_progress pre) = (false, true))) /\
     Ledger.current_offset (Ledger.replay (session 2 0 None false) tr) = p_current_offset u /\
     Ledger.status (Ledger.replay (session 2 0 None false) tr) = Cancelled) /\
  (exists u mid,
     tr = trace first_loop ++ [EvFetched (photo_record "2" 10 (url_of "2"))] ++
          (EvBatchStarted :: map EvProcessRecord
             (batch_records first_loop ++ [photo_record "2" 10 (url_of "2")])) ++
          [EvProgress u] ++ mid ++ [EvSetStatus Cancelled; EvClearRequests] /\
     flush_shape mid /\
     p_current_offset u = record_index first_loop + 1 /\
     Ledger.current_offset (Ledger.replay (session 2 0 None false) tr) = p_current_offset u /\
     Ledger.status (Ledger.replay (session 2 0 None false) tr) = Cancelled).
Proof.
  intro tr.
  destruct (pause_cancel_only_at_batch_boundary healthy_env (session 2 0 None false) cancel_at_first_check ([], []))
    as [P1 P2].
  split.
  - assert (H : In (EvSetStatus Cancelled) tr).
    { subst tr. vm_compute. repeat (first [left; reflexivity | right]). }
    split; [exact H |].
    exact (P1 five_records Cancelled H (or_intror eq_refl)).
  - exact (P2 [photo_record "1" 10 (url_of "1")] (photo_record "2" 10 (url_of "2"))
             (map (fun id => photo_record id 10 (url_of id)) ["3"; "4"; "5"]%string)
             first_loop eq_refl ltac:(vm_compute; discriminate) eq_refl
             ltac:(vm_compute; discriminate) eq_refl).
Defined.


Lemma processed_records_map (recs : list SrcRecord) :
  processed_records (map EvProcessRecord recs) = recs.
Proof. induction recs as [| r recs IH]; simpl; [reflexivity | rewrite IH; reflexivity]. Qed.

Lemma full_batch_processed (env : Env) (sess : Ledger.BatchSession) (signals : Signals)
    (l l' : Loop) :
  (full_batch env sess signals l = inl l' \/ full_batch env sess signals l = inr l') ->
  processed_records (trace l') = processed_records (trace l) ++ batch_records l /\
  batch_records l' = [] /\ record_index l' = record_index l.
Proof.
  unfold full_batch. rewrite surjective_pairing with (p := process_batch _ _ _ _).
  rewrite process_batch_events.
  destruct (signals (checks l)) as [c p].
  destruct (error_log _) as [| e es]; simpl;
    (destruct c; [| destruct p]); intros [H | H]; inversion H; subst; clear H;
    cbn [trace batch_records record_index];
    rewrite ?processed_records_app, ?processed_records_batch; simpl;
    rewrite ?app_nil_r; auto.
  all: destruct (Ledger.delay_between_batches sess >? 0); simpl; rewrite ?app_nil_r; auto.
  all: rewrite ?processed_records_app, ?processed_records_map; simpl;
    rewrite ?app_nil_r; auto.
Qed.

Lemma skipn_app_after (n : nat) (c d : list SrcRecord) :
  (n <= List.length c)%nat -> skipn n (c ++ d) = skipn n c ++ d.
Proof.
  intro H. rewrite skipn_app. replace (n - List.length c)%nat with O by lia. reflexivity.
Qed.

Lemma kept_app (dt : option Z) (a b : list SrcRecord) :
  kept dt (a ++ b) = kept dt a ++ kept dt b.
Proof. unfold kept. apply filter_app. Qed.

Lemma step_inv (env : Env) (sess : Ledger.BatchSession) (signals : Signals)
    (c : list SrcRecord) (l l' : Loop) (r : SrcRecord) :
  resume_inv sess c l ->
  (step env sess signals l r = inl l' \/ step env sess signals l r = inr l') ->
  resume_inv sess (c ++ [r]) l'.
Proof.
  intros [HP HI]. unfold step. cbn [trace batch_records record_index lst checks with_trace].
  destruct (record_index l <? Ledger.current_offset sess) eqn:Hlt.
  { apply Z.ltb_lt in Hlt.
    destruct HI as [[_ Hlen] | [Hge _]]; [| lia].
    intros [H | H]; inversion H; subst; clear H.
    unfold resume_inv; cbn [trace batch_records record_index with_index with_trace].
    rewrite length_app, processed_records_app, <- List.app_assoc. simpl.
    assert (E0 : skipn (Z.to_nat (Ledger.current_offset sess)) c = []).
    { apply skipn_all2. lia. }
    assert (E1 : skipn (Z.to_nat (Ledger.current_offset sess)) (c ++ [r]) = []).
    { apply skipn_all2. rewrite length_app. simpl. lia. }
    rewrite E1. rewrite E0 in HP. split; [exact HP |].
    destruct (Z.ltb_spec (record_index l + 1) (Ledger.current_offset sess));
      [left | right]; lia. }
  apply Z.ltb_ge in Hlt.
  destruct HI as [[Hl _] | [_ Hlen]]; [lia |].
  assert (Hsk : skipn (Z.to_nat (Ledger.current_offset sess)) (c ++ [r]) =
                skipn (Z.to_nat (Ledger.current_offset sess)) c ++ [r])
    by (apply skipn_app_after; exact Hlen).
  destruct (date_filtered (Ledger.date_to sess) r) eqn:Hf.
  { intros [H | H]; inversion H; subst; clear H.
    unfold resume_inv; cbn [trace batch_records record_index with_trace].
    rewrite Hsk, kept_app, processed_records_app, <- HP. simpl.
    unfold kept; simpl; rewrite Hf; simpl. rewrite !app_nil_r.
    split; [reflexivity | right; rewrite length_app; simpl; lia]. }
  assert (HP' : processed_records (trace l ++ [EvFetched r]) ++ (batch_records l ++ [r]) =
                kept (Ledger.date_to sess) (skipn (Z.to_nat (Ledger.current_offset sess)) (c ++ [r]))).
  { rewrite Hsk, kept_app, processed_records_app, <- HP. simpl.
    unfold kept; simpl; rewrite Hf; simpl. rewrite app_nil_r, List.app_assoc. reflexivity. }
  match goal with |- context [if ?b then full_batch _ _ _ ?l0 else _] =>
    set (lb := l0); destruct b end.
  - intro H. destruct (full_batch_processed env sess signals lb l' H) as [P1 [B1 I1]].
    subst lb. cbn [trace batch_records record_index] in P1, I1.
    unfold resume_inv. rewrite P1, B1, I1, app_nil_r.
    split; [exact HP' | right; rewrite length_app; simpl; lia].
  - intros [H | H]; inversion H; subst; clear H.
    unfold resume_inv; cbn [trace batch_records record_index].
    split; [exact HP' | right; rewrite length_app; simpl; lia].
Qed.

Lemma step_stop_batch (env : Env) (sess : Ledger.BatchSession) (signals : Signals)
    (l l' : Loop) (r : SrcRecord) :
  step env sess signals l r = inl l' -> batch_records l' = [].
Proof.
  unfold step. cbn [trace batch_records record_index lst checks with_trace].
  destruct (_ <? _); [discriminate |].
  destruct (date_filtered _ _); [discriminate |].
  match goal with |- context [if ?b then full_batch _ _ _ ?l0 else _] =>
    set (lb := l0); destruct b end; [| discriminate].
  intro H. apply (full_batch_processed env sess signals lb l' (or_introl H)).
Qed.

Lemma run_loop_inv (env : Env) (sess : Ledger.BatchSession) (signals : Signals)
    (src c : list SrcRecord) (l l' : Loop) :
  resume_inv sess c l ->
  (run_loop env sess signals src l = inr l' -> resume_inv sess (c ++ src) l') /\
  (run_loop env sess signals src l = inl l' ->
   exists c2 rest, src = c2 ++ rest /\ resume_inv sess (c ++ c2) l' /\ batch_records l' = []).
Proof.
  revert c l. induction src as [| r src IH]; intros c l Hinv; simpl.
  - split; [intro H; inversion H; subst; rewrite app_nil_r; exact Hinv | discriminate].
  - destruct (step env sess signals l r) as [l1 | l1] eqn:Hs.
    + split; [discriminate |]. intro H; inversion H; subst; clear H.
      exists [r], src. split; [reflexivity |]. split.
      * exact (step_inv env sess signals c l l' r Hinv (or_introl Hs)).
      * exact (step_stop_batch env sess signals l l' r Hs).
    + pose proof (step_inv env sess signals c l l1 r Hinv (or_intror Hs)) as Hinv1.
      destruct (IH (c ++ [r]) l1 Hinv1) as [IH1 IH2]. split.
      * intro H. rewrite <- List.app_assoc in IH1. exact (IH1 H).
      * intro H. destruct (IH2 H) as [c2 [rest [E [Hi Hb]]]].
        exists (r :: c2), rest. split; [rewrite E; reflexivity |].
        rewrite <- List.app_assoc in Hi. split; assumption.
Qed.

Lemma finish_processed (env : Env) (sess : Ledger.BatchSession) (l : Loop) :
  processed_records (fst (finish env sess l)) =
  processed_records (trace l) ++ batch_records l.
Proof.
  unfold finish. destruct (batch_records l) as [| r0 recs] eqn:Hb.
  - simpl. rewrite processed_records_app. simpl. reflexivity.
  - rewrite surjective_pairing with (p := process_batch _ _ _ _).
    rewrite process_batch_events.
    destruct (error_log _); cbn [fst snd];
      rewrite !processed_records_app, processed_records_batch; simpl;
      rewrite ?app_nil_r; reflexivity.
Qed.

Lemma run_loop_no_signals_go (env : Env) (sess : Ledger.BatchSession) (signals : Signals)
    (src : list SrcRecord) (l l' : Loop) :
  (forall k, signals k = (false, false)) ->
  run_loop env sess signals src l <> inl l'.
Proof.
  intros Hq H.
  destruct (run_loop_stop env sess signals src l l' H)
    as [ev [recs [u [mid [s [_ [_ [_ [_ [[_ S] | [_ S]]]]]]]]]]];
    rewrite Hq in S; discriminate.
Qed.

(** C2: a run of [run_batch_sync] on a session row with [current_offset]
    handles, in order, the records from position [current_offset] of the
    enumeration on that the [date_to] filter keeps: none before that
    position, and none of them is left out. A pause or cancel stops it after
    a prefix of that list; with no pause or cancel request it handles the
    whole list. *)
Theorem resume_continues_from_offset (env : Env) (sess : Ledger.BatchSession)
    (signals : Signals) (store : list Row * list (string * bytes))
    (src : list SrcRecord) :
  let tr := fst (run_batch_sync env sess signals store src) in
  let todo := kept (Ledger.date_to sess) (skipn (Z.to_nat (Ledger.current_offset sess)) src) in
  (exists rest, todo = processed_records tr ++ rest) /\
  ((forall k, signals k = (false, false)) -> processed_records tr = todo).
Proof.
  intros tr todo. subst tr todo. unfold run_batch_sync.
  match goal with |- context [run_loop env sess signals src ?l0] =>
    assert (H0 : resume_inv sess [] l0) end.
  { unfold resume_inv. cbn [trace batch_records record_index]. simpl.
    rewrite skipn_nil. split; [reflexivity |].
    destruct (Z.ltb_spec 0 (Ledger.current_offset sess)); [left | right]; lia. }
  destruct (run_loop env sess signals src _) as [l | l] eqn:Hr.
  - destruct (proj2 (run_loop_inv env sess signals src [] _ l H0) Hr)
      as [c2 [rest [E [[HP _] Hb]]]].
    cbn [fst]. rewrite processed_records_app. simpl. rewrite app_nil_r.
    rewrite Hb, app_nil_r in HP. simpl in HP. split.
    + rewrite E, skipn_app, kept_app, HP. eexists; reflexivity.
    + intro Hq. exfalso. exact (run_loop_no_signals_go env sess signals src _ l Hq Hr).
  - pose proof (proj1 (run_loop_inv env sess signals src [] _ l H0) Hr) as [HP _].
    simpl in HP. rewrite finish_processed, HP. split; [exists []; rewrite app_nil_r |]; reflexivity.
Qed.

(** An instance of C2: a session paused at offset 2, over five records in
    batches of two, with no further request: records 3, 4 and 5 are handled. *)
Lemma resume_continues_from_offset_witness :
  (forall k, no_signals k = (false, false)) /\
  processed_records (fst (run_batch_sync healthy_env (resumed_session 2 2) no_signals
                            ([], []) five_records))
  = kept None (skipn 2 five_records) /\
  kept None (skipn 2 five_records) = skipn 2 five_records.
Proof.
  split; [intro k; reflexivity |]. split; [| reflexivity].
  exact (proj2 (resume_continues_from_offset healthy_env (resumed_session 2 2) no_signals
                  ([], []) five_records) (fun k => eq_refl)).
Defined.

Lemma sync_image_dry (env : Env) (r : SrcRecord) (st : St) (img : ImgInfo) :
  match sync_image env true r st img with
  | Ok st' =>
      rows st' = rows st /\ uploads st' = uploads st /\
      images_synced (stats st') =
        images_synced (stats st) +
        (if image_exists (rows st) (rec_ID r) (field_name img) then 0 else 1)
  | Raise _ st' =>
      rows st' = rows st /\ uploads st' = uploads st /\
      exists_raises env (rec_ID r) (field_name img) = true
  end.
Proof.
  unfold sync_image.
  destruct (exists_raises env (rec_ID r) (field_name img)) eqn:He;
    [repeat split; reflexivity |].
  destruct (image_exists (rows st) (rec_ID r) (field_name img));
    simpl; repeat split; try reflexivity; lia.
Qed.

Lemma sync_images_dry (env : Env) (r : SrcRecord) (imgs : list ImgInfo) (st : St) :
  match sync_images env true r st imgs with
  | Ok st' =>
      rows st' = rows st /\ uploads st' = uploads st /\
      images_synced (stats st') =
        images_synced (stats st) +
        Z.of_nat (List.length (filter (fun img => negb (image_exists (rows st) (rec_ID r)
                                                           (field_name img))) imgs))
  | Raise _ st' =>
      rows st' = rows st /\ uploads st' = uploads st /\
      exists a b, exists_raises env a b = true
  end.
Proof.
  revert st. induction imgs as [| img imgs IH]; intro st; simpl.
  - repeat split; lia.
  - pose proof (sync_image_dry env r st img) as H1.
    destruct (sync_image env true r st img) as [st1 | m st1].
    + destruct H1 as [R1 [U1 S1]].
      specialize (IH st1).
      destruct (sync_images env true r st1 imgs) as [st2 | m st2].
      * destruct IH as [R2 [U2 S2]]. rewrite R1 in R2, S2. rewrite U1 in U2.
        repeat split; try assumption. rewrite S2, S1.
        destruct (image_exists (rows st) (rec_ID r) (field_name img)); simpl;
          rewrite ?Nat2Z.inj_succ; lia.
      * destruct IH as [R2 [U2 E2]]. rewrite R1 in R2. rewrite U1 in U2.
        repeat split; assumption.
    + destruct H1 as [R1 [U1 E1]]. repeat split; try assumption. eauto.
Qed.

Lemma process_one_dry (env : Env) (st : St) (r : SrcRecord) :
  rows (process_one env true st r) = rows st /\
  uploads (process_one env true st r) = uploads st /\
  ((forall a b, exists_raises env a b = false) ->
   images_synced (stats (process_one env true st r)) =
     images_synced (stats st) + new_in_record (rows st) r).
Proof.
  unfold process_one, process_record, new_in_record.
  pose proof (sync_images_dry env r (rec_images r)
                (set_stats st (incr_records_processed (stats st)))) as H.
  destruct (sync_images _ _ _ _ _) as [st' | m st'].
  - destruct H as [R [U S]]. cbn in R, U, S. repeat split; try assumption.
    intros _. exact S.
  - destruct H as [R [U [a [b E]]]]. cbn in R, U. simpl. repeat split; try assumption.
    intro Hq. rewrite Hq in E. discriminate.
Qed.

Lemma fold_process_one_dry (env : Env) (recs : list SrcRecord) (st : St) :
  rows (fold_left (process_one env true) recs st) = rows st /\
  uploads (fold_left (process_one env true) recs st) = uploads st /\
  ((forall a b, exists_raises env a b = false) ->
   images_synced (stats (fold_left (process_one env true) recs st)) =
     images_synced (stats st) + count_new (rows st) recs).
Proof.
  revert st. induction recs as [| r recs IH]; intro st; simpl.
  - repeat split; intros; lia.
  - destruct (process_one_dry env st r) as [R1 [U1 S1]].
    destruct (IH (process_one env true st r)) as [R2 [U2 S2]].
    rewrite R1 in R2, S2. rewrite U1 in U2.
    repeat split; try assumption. intro Hq. rewrite (S2 Hq), (S1 Hq). lia.
Qed.

Lemma count_new_app (rs : list Row) (a b : list SrcRecord) :
  count_new rs (a ++ b) = count_new rs a + count_new rs b.
Proof. induction a as [| r a IH]; simpl; [reflexivity | rewrite IH; lia]. Qed.

Lemma full_batch_lst (env : Env) (sess : Ledger.BatchSession) (signals : Signals)
    (l l' : Loop) :
  (full_batch env sess signals l = inl l' \/ full_batch env sess signals l = inr l') ->
  let st := fst (process_batch env (Ledger.dry_run sess) (batch_records l) (lst l)) in
  rows (lst l') = rows st /\ uploads (lst l') = uploads st /\
  images_synced (stats (lst l')) = images_synced (stats st).
Proof.
  unfold full_batch. rewrite surjective_pairing with (p := process_batch _ _ _ _).
  destruct (signals (checks l)) as [c p].
  destruct (error_log _) as [| e es]; simpl;
    (destruct c; [| destruct p]); intros [H | H]; inversion H; subst; clear H;
    simpl; auto.
Qed.

Lemma finish_lst (env : Env) (sess : Ledger.BatchSession) (l : Loop) :
  let st := fold_left (process_one env (Ledger.dry_run sess)) (batch_records l) (lst l) in
  rows (snd (finish env sess l)) = rows st /\ uploads (snd (finish env sess l)) = uploads st /\
  images_synced (stats (snd (finish env sess l))) = images_synced (stats st).
Proof.
  unfold finish. destruct (batch_records l) as [| r0 recs]; simpl; [auto |].
  destruct (error_log _); simpl; auto.
Qed.

Section DryRun.

Variable env : Env.
Variable sess : Ledger.BatchSession.
Variable signals : Signals.
Variable rows0 : list Row.
Variable uploads0 : list (string * bytes).
Hypothesis dry : Ledger.dry_run sess = true.

Lemma full_batch_dry (l l' : Loop) :
  dry_run_inv env sess rows0 uploads0 l ->
  (full_batch env sess signals l = inl l' \/ full_batch env sess signals l = inr l') ->
  dry_run_inv env sess rows0 uploads0 l' /\ batch_records l' = [].
Proof.
  intros [R [U S]] H.
  destruct (full_batch_processed env sess signals l l' H) as [P [B _]].
  destruct (full_batch_lst env sess signals l l' H) as [R' [U' S']].
  cbn [process_batch fst] in R', U', S'. rewrite dry in R', U', S'.
  destruct (fold_process_one_dry env (batch_records l) (lst l)) as [R1 [U1 S1]].
  split; [| exact B].
  unfold dry_run_inv. rewrite R', U', S', R1, U1, R, U, P.
  repeat split; try reflexivity.
  intro Hq. rewrite (S1 Hq), (S Hq), R, count_new_app. lia.
Qed.

Lemma dry_run_inv_fetch (l l2 : Loop) :
  lst l2 = lst l -> processed_records (trace l2) = processed_records (trace l) ->
  dry_run_inv env sess rows0 uploads0 l -> dry_run_inv env sess rows0 uploads0 l2.
Proof. unfold dry_run_inv. intros -> ->. exact (fun H => H). Qed.

Lemma step_dry (l l' : Loop) (r : SrcRecord) :
  dry_run_inv env sess rows0 uploads0 l ->
  (step env sess signals l r = inl l' \/ step env sess signals l r = inr l') ->
  dry_run_inv env sess rows0 uploads0 l'.
Proof.
  intros D. unfold step. cbn [trace batch_records record_index lst checks with_trace].
  assert (Pf : processed_records (trace l ++ [EvFetched r]) = processed_records (trace l))
    by (rewrite processed_records_app; simpl; apply app_nil_r).
  destruct (record_index l <? Ledger.current_offset sess).
  { intros [H | H]; inversion H; subst; clear H.
    apply (dry_run_inv_fetch l); [reflexivity | exact Pf | exact D]. }
  destruct (date_filtered (Ledger.date_to sess) r).
  { intros [H | H]; inversion H; subst; clear H.
    apply (dry_run_inv_fetch l); [reflexivity | exact Pf | exact D]. }
  match goal with |- context [if ?b then full_batch _ _ _ ?l0 else _] =>
    set (lb := l0); destruct b end.
  - intro H. refine (proj1 (full_batch_dry lb l' _ H)).
    apply (dry_run_inv_fetch l); [reflexivity | exact Pf | exact D].
  - intros [H | H]; inversion H; subst; clear H.
    apply (dry_run_inv_fetch l); [reflexivity | exact Pf | exact D].
Qed.

Lemma run_loop_dry (src : list SrcRecord) (l l' : Loop) :
  dry_run_inv env sess rows0 uploads0 l ->
  (run_loop env sess signals src l = inl l' \/ run_loop env sess signals src l = inr l') ->
  dry_run_inv env sess rows0 uploads0 l'.
Proof.
  revert l. induction src as [| r src IH]; intros l D H; simpl in H.
  - destruct H as [H | H]; inversion H; subst; exact D.
  - destruct (step env sess signals l r) as [l1 | l1] eqn:Hs.
    + destruct H as [H | H]; inversion H; subst.
      exact (step_dry l l' r D (or_introl Hs)).
    + exact (IH l1 (step_dry l l1 r D (or_intror Hs)) H).
Qed.

End DryRun.

(** C6 (as the code has it): a dry run of [run_batch_sync] writes no
    [images] row and uploads nothing; when the existence check never
    raises, it adds to [images_synced] one per attachment of each handled
    record whose [(record id, field name)] has no row, whatever the URL and
    whatever the download, normalization and upload would have done. *)
Theorem dry_run_writes_nothing (env : Env) (sess : Ledger.BatchSession) (signals : Signals)
    (store : list Row * list (string * bytes)) (src : list SrcRecord) :
  Ledger.dry_run sess = true ->
  let res := run_batch_sync env sess signals store src in
  rows (snd res) = fst store /\ uploads (snd res) = snd store /\
  ((forall a b, exists_raises env a b = false) ->
   images_synced (stats (snd res)) =
     Ledger.images_synced sess + count_new (fst store) (processed_records (fst res))).
Proof.
  intros Hdry res. subst res. unfold run_batch_sync.
  match goal with |- context [run_loop env sess signals src ?l0] =>
    assert (D0 : dry_run_inv env sess (fst store) (snd store) l0) end.
  { unfold dry_run_inv. cbn. repeat split. intros _. lia. }
  destruct (run_loop env sess signals src _) as [l | l] eqn:Hr.
  - destruct (run_loop_dry env sess signals (fst store) (snd store) Hdry src _ l D0
                (or_introl Hr)) as [R [U S]].
    cbn [fst snd]. rewrite processed_records_app. simpl. rewrite app_nil_r. auto.
  - destruct (run_loop_dry env sess signals (fst store) (snd store) Hdry src _ l D0
                (or_intror Hr)) as [R [U S]].
    destruct (finish_lst env sess l) as [R' [U' S']].
    rewrite Hdry in R', U', S'.
    destruct (fold_process_one_dry env (batch_records l) (lst l)) as [R1 [U1 S1]].
    rewrite R', U', S', R1, U1, R, U, finish_processed.
    repeat split. intro Hq. rewrite (S1 Hq), (S Hq), R, count_new_app. lia.
Qed.

(** An instance of C6: a dry run over five new photos counts five and writes
    nothing. *)
Lemma dry_run_writes_nothing_witness :
  Ledger.dry_run (session 2 0 None true) = true /\
  let res := run_batch_sync healthy_env (session 2 0 None true) no_signals ([], [])
               five_records in
  rows (snd res) = [] /\ uploads (snd res) = [] /\
  ((forall a b, exists_raises healthy_env a b = false) ->
   images_synced (stats (snd res)) =
     Ledger.images_synced (session 2 0 None true) + count_new [] (processed_records (fst res))).
Proof.
  split; [reflexivity |].
  exact (dry_run_writes_nothing healthy_env (session 2 0 None true) no_signals ([], [])
           five_records eq_refl).
Defined.

(** C6, refuted: for a record whose photo URL is not [http(s)], the dry run
    counts the photo in [images_synced] while the real run over the same
    source counts an error and no synced image. *)
Lemma dry_run_count_counterexample :
  images_synced (stats (snd (run_batch_sync healthy_env (session 1 0 None true) no_signals
     ([], []) [photo_record "R1" 10 "ftp://files.example/a.jpg"]))) = 1 /\
  images_synced (stats (snd (run_batch_sync healthy_env (session 1 0 None false) no_signals
     ([], []) [photo_record "R1" 10 "ftp://files.example/a.jpg"]))) = 0 /\
  errors (stats (snd (run_batch_sync healthy_env (session 1 0 None false) no_signals
     ([], []) [photo_record "R1" 10 "ftp://files.example/a.jpg"]))) = 1.
Proof. vm_compute. repeat split. Qed.

(** ** Further properties of the code *)

Lemma skipn_tail_1000 {A} (n : nat) (c : list A) :
  (if Nat.ltb n (List.length c) then skipn (List.length c - n) c else c)
  = skipn (List.length c - n) c.
Proof.
  destruct (Nat.ltb_spec n (List.length c)); [reflexivity |].
  replace (List.length c - n)%nat with O by lia. reflexivity.
Qed.

Lemma skipn_tail_app {A} (n : nat) (x y : list A) :
  skipn (List.length (skipn (List.length x - n) x ++ y) - n) (skipn (List.length x - n) x ++ y)
  = skipn (List.length (x ++ y) - n) (x ++ y).
Proof.
  rewrite !length_app, length_skipn, !skipn_app, skipn_skipn, length_skipn.
  f_equal; f_equal; lia.
Qed.

(** X1: [BatchSyncRepository.append_errors] keeps at most 1000 entries: the new
    log has [min 1000 (old + new)] entries, and it is a suffix of the old log
    followed by the new errors, so only the oldest entries are dropped. *)
Theorem append_errors_keeps_last_1000 (s : Ledger.BatchSession) (new_errors : list ErrEntry) :
  let out := Ledger.error_log (Ledger.append_errors s new_errors) in
  List.length out = Nat.min 1000 (List.length (Ledger.error_log s) + List.length new_errors) /\
  exists dropped, Ledger.error_log s ++ new_errors = dropped ++ out.
Proof.
  intro out. subst out. unfold Ledger.append_errors. cbv zeta. cbn [Ledger.error_log].
  rewrite skipn_tail_1000. split.
  - rewrite length_skipn, length_app. lia.
  - exists (firstn (List.length (Ledger.error_log s ++ new_errors) - 1000)
                   (Ledger.error_log s ++ new_errors)).
    symmetry. apply firstn_skipn.
Qed.

(** X2: two successive [append_errors] calls, with [a] then [b], leave the
    same session as one call with [a ++ b]. *)
Theorem append_errors_compose (s : Ledger.BatchSession) (a b : list ErrEntry) :
  Ledger.append_errors (Ledger.append_errors s a) b = Ledger.append_errors s (a ++ b).
Proof.
  unfold Ledger.append_errors. cbv zeta. cbn [Ledger.error_log].
  rewrite !skipn_tail_1000, List.app_assoc, skipn_tail_app. reflexivity.
Qed.

Lemma key_match_row (row : Row) :
  (String.eqb (zoho_record_id row) (zoho_record_id row) &&
   String.eqb (row_field_name row) (row_field_name row))%bool = true.
Proof. rewrite !String.eqb_refl. reflexivity. Qed.

Lemma rows_at_upsert_map (rs : list Row) (row : Row) :
  rows_at (map (fun r => if (String.eqb (zoho_record_id r) (zoho_record_id row) &&
                             String.eqb (row_field_name r) (row_field_name row))%bool
                         then row else r) rs) (zoho_record_id row) (row_field_name row)
  = repeat row (count_key rs (zoho_record_id row) (row_field_name row)).
Proof.
  unfold rows_at, count_key. induction rs as [| r rs IH]; [reflexivity |]. simpl.
  destruct ((zoho_record_id r =? zoho_record_id row)%string &&
            (row_field_name r =? row_field_name row)%string)%bool eqn:E.
  - rewrite key_match_row. simpl. rewrite IH. reflexivity.
  - rewrite E. exact IH.
Qed.

Lemma rows_at_upsert_map_other (rs : list Row) (row : Row) (rid field : string) :
  (rid <> zoho_record_id row \/ field <> row_field_name row) ->
  rows_at (map (fun r => if (String.eqb (zoho_record_id r) (zoho_record_id row) &&
                             String.eqb (row_field_name r) (row_field_name row))%bool
                         then row else r) rs) rid field
  = rows_at rs rid field.
Proof.
  intro Hk. unfold rows_at. induction rs as [| r rs IH]; [reflexivity |]. simpl.
  destruct ((zoho_record_id r =? zoho_record_id row)%string &&
            (row_field_name r =? row_field_name row)%string)%bool eqn:E.
  - apply andb_true_iff in E as [E1 E2].
    apply String.eqb_eq in E1, E2. rewrite E1, E2.
    assert (F : ((zoho_record_id row =? rid)%string && (row_field_name row =? field)%string)%bool
                = false).
    { apply andb_false_iff. destruct Hk as [H | H]; [left | right];
        apply String.eqb_neq; congruence. }
    rewrite F. exact IH.
  - destruct ((zoho_record_id r =? rid)%string && (row_field_name r =? field)%string)%bool;
      [f_equal |]; exact IH.
Qed.

Lemma rows_at_nil (rs : list Row) (rid field : string) :
  count_key rs rid field = O -> rows_at rs rid field = [].
Proof. unfold count_key, rows_at. apply length_zero_iff_nil. Qed.

(** X3: after [ImageRepository.upsert_image(row)], every row keyed by the
    row's [(zoho_record_id, field_name)] equals [row] (one row when the key
    was absent, as many as before otherwise), the rows of every other key
    are unchanged, and the table grows by one row exactly when
    [image_exists] was false. *)
Theorem upsert_image_rows_at (rs : list Row) (row : Row) :
  rows_at (upsert_image rs row) (zoho_record_id row) (row_field_name row)
    = repeat row (Nat.max 1 (count_key rs (zoho_record_id row) (row_field_name row))) /\
  (forall rid field, rid <> zoho_record_id row \/ field <> row_field_name row ->
     rows_at (upsert_image rs row) rid field = rows_at rs rid field) /\
  List.length (upsert_image rs row)
    = (List.length rs +
       if image_exists rs (zoho_record_id row) (row_field_name row) then 0 else 1)%nat.
Proof.
  unfold upsert_image.
  destruct (image_exists rs (zoho_record_id row) (row_field_name row)) eqn:He.
  - pose proof (image_exists_count_pos _ _ _ He) as Hc.
    split; [| split].
    + rewrite rows_at_upsert_map. f_equal. lia.
    + intros rid field Hk. apply rows_at_upsert_map_other. exact Hk.
    + rewrite length_map. lia.
  - pose proof (image_exists_count_key _ _ _ He) as Hc.
    split; [| split].
    + unfold rows_at at 1. rewrite filter_app. fold (rows_at rs (zoho_record_id row) (row_field_name row)).
      rewrite rows_at_nil by exact Hc. simpl. rewrite key_match_row, Hc. reflexivity.
    + intros rid field Hk. unfold rows_at at 1. rewrite filter_app. simpl.
      assert (F : ((zoho_record_id row =? rid)%string && (row_field_name row =? field)%string)%bool
                  = false).
      { apply andb_false_iff. destruct Hk as [H | H]; [left | right];
          apply String.eqb_neq; congruence. }
      rewrite F, app_nil_r. reflexivity.
    + rewrite length_app. reflexivity.
Qed.

Lemma lower_app (s t : string) : lower (s ++ t) = (lower s ++ lower t)%string.
Proof. induction s as [| c s IH]; simpl; [reflexivity | rewrite IH; reflexivity]. Qed.

Lemma string_length_app (s t : string) :
  String.length (s ++ t) = (String.length s + String.length t)%nat.
Proof. induction s as [| c s IH]; simpl; [reflexivity | rewrite IH; reflexivity]. Qed.

Lemma substring_app_right (s t : string) (m : nat) :
  substring (String.length s) m (s ++ t) = substring 0 m t.
Proof. induction s as [| c s IH]; simpl; [reflexivity | exact IH]. Qed.

Lemma substring_whole (t : string) : substring 0 (String.length t) t = t.
Proof. induction t as [| c t IH]; simpl; [reflexivity | rewrite IH; reflexivity]. Qed.

Lemma endswith_app (s t : string) : endswith (s ++ t) t = true.
Proof.
  unfold endswith. rewrite string_length_app.
  replace (String.length s + String.length t - String.length t)%nat with (String.length s) by lia.
  rewrite substring_app_right, substring_whole, String.eqb_refl.
  apply andb_true_iff. split; [apply Nat.leb_le; lia | reflexivity].
Qed.

Lemma format_map_ext (fmt : option string) : In (format_map fmt) image_exts.
Proof.
  unfold format_map.
  repeat match goal with
         | |- context [match ?x with _ => _ end] => destruct x
         end; simpl; tauto.
Qed.

Lemma detect_format_ext (pil_open : bytes -> option PilImage) (b : bytes) :
  In (detect_format pil_open b) image_exts.
Proof.
  unfold detect_format.
  repeat match goal with
         | |- context [if ?c then _ else _] => destruct c
         end; try (simpl; tauto).
  destruct (pil_open b); [apply format_map_ext | simpl; tauto].
Qed.

Lemma lower_image_ext (e : string) : In e image_exts -> lower e = e.
Proof. simpl. intros H. repeat destruct H as [<- | H]; try reflexivity. contradiction. Qed.


(** X4: the name [ImageProcessor._ensure_extension] returns always ends, in
    lower case, with one of the eight image extensions, and applying
    [_ensure_extension] to it again, with any bytes, returns it unchanged. *)
Theorem ensure_extension_idempotent (pil_open : bytes -> option PilImage) (b : bytes)
    (filename : string) :
  let out := ensure_extension pil_open b filename in
  existsb (endswith (lower out)) image_exts = true /\
  forall b' : bytes, ensure_extension pil_open b' out = out.
Proof.
  intro out.
  assert (H : existsb (endswith (lower out)) image_exts = true).
  { subst out. unfold ensure_extension.
    destruct (existsb (endswith (lower filename)) image_exts) eqn:E; [exact E |].
    apply existsb_exists. exists (detect_format pil_open b).
    split; [apply detect_format_ext |].
    rewrite lower_app, (lower_image_ext _ (detect_format_ext pil_open b)).
    apply endswith_app. }
  split; [exact H |]. intro b'. unfold ensure_extension at 1. rewrite H. reflexivity.
Qed.

Lemma pages_step (m P : nat) :
  (0 < P)%nat -> (0 < m)%nat ->
  ((m + P - 1) / P)%nat = S ((m - P + P - 1) / P)%nat.
Proof.
  intros HP Hm. destruct (Nat.le_gt_cases P m) as [Hle | Hlt].
  - replace (m + P - 1)%nat with ((m - P + P - 1) + 1 * P)%nat by lia.
    rewrite Nat.div_add by lia. lia.
  - replace (m - P + P - 1)%nat with (P - 1)%nat by lia.
    rewrite (Nat.div_small (P - 1) P) by lia.
    symmetry. apply (Nat.div_unique _ _ _ (m - 1)); lia.
Qed.

Section Paged.

Variable L : list SrcRecord.
Variable p : Z.
Variable transport : Transport.
Hypothesis Hp : 0 < p.
Hypothesis Ht : forall n from, transport n from = RData (firstn (Z.to_nat p) (skipn (Z.to_nat from) L)).

Lemma fetch_loop_paged (fuel k n : nat) (acc : FetchOut) :
  (((List.length L - k + Z.to_nat p - 1) / Z.to_nat p) + 1 <= fuel)%nat ->
  fetch_loop fuel transport p (Z.of_nat k) n acc =
  {| yielded := yielded acc ++ skipn k L;
     requests := (n + (List.length L - k + Z.to_nat p - 1) / Z.to_nat p + 1)%nat;
     sleeps := sleeps acc; outcome := Exhausted |}.
Proof.
  revert k n acc. induction fuel as [| f IH]; intros k n acc Hf; [lia |].
  simpl. rewrite Ht, Nat2Z.id.
  destruct (Nat.le_gt_cases (List.length L) k) as [Hk | Hk].
  - rewrite (skipn_all2 L Hk), firstn_nil.
    replace ((List.length L - k + Z.to_nat p - 1) / Z.to_nat p)%nat with O.
    + rewrite app_nil_r, Nat.add_0_r, Nat.add_1_r. reflexivity.
    + symmetry. apply Nat.div_small. lia.
  - destruct (firstn (Z.to_nat p) (skipn k L)) as [| x xs] eqn:Ef.
    + exfalso. apply (f_equal (@List.length SrcRecord)) in Ef.
      rewrite length_firstn, length_skipn in Ef. simpl in Ef. lia.
    + rewrite <- Ef.
      replace (Z.of_nat k + p) with (Z.of_nat (k + Z.to_nat p)) by lia.
      rewrite pages_step in Hf |- * by lia.
      rewrite IH.
      * cbn [yielded sleeps]. rewrite <- List.app_assoc.
        rewrite <- (Nat.add_comm (Z.to_nat p) k), <- skipn_skipn, firstn_skipn.
        f_equal. replace (List.length L - (Z.to_nat p + k))%nat
          with (List.length L - k - Z.to_nat p)%nat by lia. lia.
      * replace (List.length L - (k + Z.to_nat p))%nat
          with (List.length L - k - Z.to_nat p)%nat by lia. lia.
Qed.

End Paged.


(** X5: when the report holds the records [L] and the API answers every page
    with its slice [L[from:from+200]], [fetch_records] yields exactly [L], in
    order, with [ceil(len L / 200) + 1] requests (the last one gets an empty
    page) and no sleep. *)
Theorem fetch_records_pages (L : list SrcRecord) (transport : Transport) (fuel : nat) :
  (forall n from, transport n from = RData (firstn 200 (skipn (Z.to_nat from) L))) ->
  ((List.length L + 199) / 200 + 1 <= fuel)%nat ->
  fetch_records fuel transport =
  {| yielded := L; requests := ((List.length L + 199) / 200 + 1)%nat;
     sleeps := []; outcome := Exhausted |}.
Proof.
  intros Ht Hf. unfold fetch_records.
  change 0 with (Z.of_nat 0).
  rewrite (fetch_loop_paged L 200 transport); [| lia | exact Ht |].
  - change (Z.to_nat 200) with 200%nat.
    replace (List.length L - 0 + 200 - 1)%nat with (List.length L + 199)%nat by lia.
    reflexivity.
  - replace (List.length L - 0 + Z.to_nat 200 - 1)%nat with (List.length L + 199)%nat by lia.
    exact Hf.
Qed.

Lemma fetch_records_pages_witness :
  let L := repeat (photo_record "7" 10 (url_of "7")) 450 in
  fetch_records 4 (fun _ from => RData (firstn 200 (skipn (Z.to_nat from) L))) =
  {| yielded := L; requests := 4%nat; sleeps := []; outcome := Exhausted |}.
Proof.
  intro L. apply (fetch_records_pages L).
  - intros n from. reflexivity.
  - vm_compute. lia.
Defined.

Section RateLimited.

Variable transport transport' : Transport.
Variable p : Z.
Variable k : nat.
Hypothesis H429 : forall n from, (n < k)%nat -> transport' n from = RStatus 429.
Hypothesis Hshift : forall n from, transport' (k + n)%nat from = transport n from.

Lemma fetch_loop_shift (fuel n : nat) (from : Z) (pre : list Z) (acc acc' : FetchOut) :
  yielded acc' = yielded acc -> sleeps acc' = pre ++ sleeps acc ->
  fetch_loop fuel transport' p from (k + n) acc' =
  let r := fetch_loop fuel transport p from n acc in
  {| yielded := yielded r; requests := (k + requests r)%nat; sleeps := pre ++ sleeps r;
     outcome := outcome r |}.
Proof.
  revert n from acc acc'. induction fuel as [| f IH]; intros n from acc acc' Hy Hs; simpl.
  - rewrite Hy, Hs. reflexivity.
  - rewrite Hshift. destruct (transport n from) as [records | code |].
    + destruct records as [| x xs].
      * rewrite Hy, Hs. simpl. rewrite Nat.add_succ_r. reflexivity.
      * rewrite <- Nat.add_succ_r. apply IH; simpl; rewrite ?Hy, ?Hs; reflexivity.
    + destruct (code =? 429).
      * rewrite <- Nat.add_succ_r. apply IH; simpl; rewrite ?Hy, ?Hs;
          [reflexivity | symmetry; apply List.app_assoc].
      * rewrite Hy, Hs. simpl. rewrite Nat.add_succ_r. reflexivity.
    + rewrite Hy, Hs. simpl. rewrite Nat.add_succ_r. reflexivity.
Qed.

Lemma fetch_loop_429_prefix (j fuel : nat) (from : Z) (acc : FetchOut) :
  (j <= k)%nat ->
  fetch_loop (j + fuel) transport' p from (k - j) acc =
  fetch_loop fuel transport' p from k
    {| yielded := yielded acc; requests := k; sleeps := sleeps acc ++ repeat 60 j;
       outcome := outcome acc |}.
Proof.
  revert acc. induction j as [| j IH]; intros acc Hj.
  - simpl. rewrite Nat.sub_0_r, app_nil_r.
    destruct fuel as [| f]; simpl; [reflexivity |].
    destruct acc; reflexivity.
  - simpl. rewrite H429 by lia. simpl.
    replace (S (k - S j)) with (k - j)%nat by lia.
    rewrite IH by lia. simpl. rewrite <- List.app_assoc. reflexivity.
Qed.

End RateLimited.


(** X6: answers 429 before the real answers do not change what
    [fetch_records] yields or how it ends: each of the [k] leading 429s costs
    one request and one 60 s sleep, and the run then proceeds as it would
    without them. *)
Theorem fetch_records_429_transparent (transport transport' : Transport) (k fuel : nat) :
  (forall n from, (n < k)%nat -> transport' n from = RStatus 429) ->
  (forall n from, transport' (k + n)%nat from = transport n from) ->
  fetch_records (k + fuel) transport' =
  let r := fetch_records fuel transport in
  {| yielded := yielded r; requests := (k + requests r)%nat;
     sleeps := repeat 60 k ++ sleeps r; outcome := outcome r |}.
Proof.
  intros H429 Hshift. unfold fetch_records.
  replace O with (k - k)%nat at 1 by lia.
  rewrite (fetch_loop_429_prefix transport' 200 k H429 k fuel 0) by lia.
  match goal with |- fetch_loop _ _ _ _ _ ?a = _ =>
    pose proof (fetch_loop_shift transport transport' 200 k Hshift fuel 0 0 (repeat 60 k)
                  {| yielded := []; requests := O; sleeps := []; outcome := Exhausted |} a
                  eq_refl) as E end.
  rewrite Nat.add_0_r in E. apply E. simpl. rewrite app_nil_r. reflexivity.
Qed.

Lemma fetch_records_429_transparent_witness :
  let t : Transport := fun _ from =>
    RData (firstn 200 (skipn (Z.to_nat from) (repeat (photo_record "7" 10 (url_of "7")) 250))) in
  let t' : Transport := fun n from =>
    match n with O | S O => RStatus 429 | S (S m) => t m from end in
  fetch_records (2 + 3) t' =
  let r := fetch_records 3 t in
  {| yielded := yielded r; requests := (2 + requests r)%nat;
     sleeps := repeat 60 2 ++ sleeps r; outcome := outcome r |}.
Proof.
  intros t t'. apply (fetch_records_429_transparent t t' 2 3).
  - intros n from H. destruct n as [| [| n]]; [reflexivity | reflexivity | lia].
  - intros n from. reflexivity.
Defined.

Lemma sync_image_total (env : Env) (d : bool) (r : SrcRecord) (st : St) (img : ImgInfo) :
  match sync_image env d r st img with
  | Ok st' =>
      image_total (stats st') = image_total (stats st) + 1 /\
      records_processed (stats st') = records_processed (stats st) /\
      batches_completed (stats st') = batches_completed (stats st)
  | Raise _ st' => st' = st /\ exists_raises env (rec_ID r) (field_name img) = true
  end.
Proof.
  unfold sync_image.
  destruct (exists_raises env (rec_ID r) (field_name img)) eqn:He; [split; reflexivity |].
  destruct (image_exists (rows st) (rec_ID r) (field_name img)).
  { unfold image_total; simpl; repeat split; lia. }
  destruct d.
  { unfold image_total; simpl; repeat split; lia. }
  destruct (negb (url_ok (download_url img))).
  { unfold image_total; simpl; repeat split; lia. }
  destruct (download_image env (download_url img)) as [b |].
  2: { unfold image_total; simpl; repeat split; lia. }
  destruct (Engine.process_if_needed env b (filename img)) as [[[pb fnm] wp] |].
  2: { unfold image_total; simpl; repeat split; lia. }
  destruct (upload_raises env (storage_path_of r fnm));
    unfold image_total; simpl; repeat split; lia.
Qed.

Lemma sync_images_total (env : Env) (d : bool) (r : SrcRecord) (imgs : list ImgInfo) (st : St) :
  match sync_images env d r st imgs with
  | Ok st' =>
      image_total (stats st') = image_total (stats st) + Z.of_nat (List.length imgs) /\
      records_processed (stats st') = records_processed (stats st) /\
      batches_completed (stats st') = batches_completed (stats st)
  | Raise _ st' =>
      image_total (stats st') + 1 <= image_total (stats st) + Z.of_nat (List.length imgs) /\
      records_processed (stats st') = records_processed (stats st) /\
      batches_completed (stats st') = batches_completed (stats st) /\
      exists a b, exists_raises env a b = true
  end.
Proof.
  revert st. induction imgs as [| img imgs IH]; intro st; simpl.
  - repeat split; lia.
  - pose proof (sync_image_total env d r st img) as H1.
    destruct (sync_image env d r st img) as [st1 | m st1].
    + destruct H1 as [T1 [R1 B1]]. specialize (IH st1).
      destruct (sync_images env d r st1 imgs) as [st2 | m st2].
      * destruct IH as [T2 [R2 B2]]. repeat split; lia.
      * destruct IH as [T2 [R2 [B2 E2]]]. repeat split; try lia. exact E2.
    + destruct H1 as [-> E1]. repeat split; try lia. eauto.
Qed.

Lemma process_one_total (env : Env) (d : bool) (st : St) (r : SrcRecord) :
  let st' := process_one env d st r in
  records_processed (stats st') = records_processed (stats st) + 1 /\
  batches_completed (stats st') = batches_completed (stats st) /\
  image_total (stats st') <= image_total (stats st) + Z.of_nat (List.length (rec_images r)) /\
  ((forall a b, exists_raises env a b = false) ->
   image_total (stats st') = image_total (stats st) + Z.of_nat (List.length (rec_images r))).
Proof.
  intro st'. subst st'. unfold process_one, process_record.
  pose proof (sync_images_total env d r (rec_images r)
                (set_stats st (incr_records_processed (stats st)))) as H.
  destruct (sync_images _ _ _ _ _) as [st1 | m st1].
  - destruct H as [T [R B]]. unfold image_total in *; cbn in T, R, B.
    repeat split; intros; lia.
  - destruct H as [T [R [B [a [b E]]]]]. unfold image_total in *; cbn in T, R, B |- *.
    repeat split; try lia. intro Hq. rewrite Hq in E. discriminate.
Qed.

Lemma fold_process_one_total (env : Env) (d : bool) (recs : list SrcRecord) (st : St) :
  let st' := fold_left (process_one env d) recs st in
  records_processed (stats st') = records_processed (stats st) + Z.of_nat (List.length recs) /\
  batches_completed (stats st') = batches_completed (stats st) /\
  image_total (stats st') <= image_total (stats st) + attachments recs /\
  ((forall a b, exists_raises env a b = false) ->
   image_total (stats st') = image_total (stats st) + attachments recs).
Proof.
  revert st. induction recs as [| r recs IH]; intro st; simpl.
  - repeat split; intros; lia.
  - destruct (process_one_total env d st r) as [R1 [B1 [T1 E1]]].
    destruct (IH (process_one env d st r)) as [R2 [B2 [T2 E2]]].
    repeat split; try lia. intro Hq. rewrite (E2 Hq), (E1 Hq). lia.
Qed.

Lemma counters_quiet (s : Ledger.BatchSession) (ev : list Event) :
  count_progress ev = O -> counters (Ledger.replay s ev) = counters s.
Proof.
  revert s. induction ev as [| e ev IH]; intros s H; [reflexivity |].
  unfold Ledger.replay in *.
  destruct e; simpl in H; try discriminate; simpl; rewrite IH by exact H; reflexivity.
Qed.

Lemma attachments_app (a b : list SrcRecord) :
  attachments (a ++ b) = attachments a + attachments b.
Proof. induction a as [| r a IH]; simpl; [reflexivity | rewrite IH; lia]. Qed.

Lemma counter_inv_quiet (env : Env) (sess : Ledger.BatchSession) (tr ev : list Event)
    (x : Stats) :
  count_progress ev = O -> processed_records ev = [] ->
  counter_inv env sess tr x -> counter_inv env sess (tr ++ ev) x.
Proof.
  intros C P [R [B [T [E K]]]]. unfold counter_inv.
  rewrite processed_records_app, count_progress_app, P, C, app_nil_r, Nat.add_0_r.
  rewrite replay_app, counters_quiet by exact C. auto.
Qed.

Lemma counter_inv_batch (env : Env) (sess : Ledger.BatchSession) (tr mid : list Event)
    (recs : list SrcRecord) (idx : Z) (st : St) :
  counter_inv env sess tr (stats st) ->
  count_progress mid = O -> processed_records mid = [] ->
  let x := incr_batches_completed
             (stats (fold_left (process_one env (Ledger.dry_run sess)) recs st)) in
  counter_inv env sess
    (tr ++ (EvBatchStarted :: map EvProcessRecord recs) ++ [EvProgress (progress_of idx x)] ++ mid)
    x.
Proof.
  intros [R [B [T [E K]]]] C P x. subst x.
  destruct (fold_process_one_total env (Ledger.dry_run sess) recs st) as [R1 [B1 [T1 E1]]].
  unfold counter_inv.
  match goal with |- _ /\ _ /\ _ /\ _ /\ ?g => assert (Kx : g) end.
  { rewrite (replay_app sess tr), (replay_app _ (EvBatchStarted :: _)),
      (replay_app _ [_]), counters_quiet by exact C. reflexivity. }
  refine (conj _ (conj _ (conj _ (conj _ Kx)))); clear Kx.
  all: unfold image_total in *; cbn [records_processed batches_completed
    images_synced images_skipped errors incr_batches_completed] in *.
  all: rewrite ?processed_records_app, ?count_progress_app, ?processed_records_batch,
    ?count_progress_batch, ?P, ?C; cbn [processed_records count_progress].
  all: rewrite ?app_nil_r, ?attachments_app, ?length_app; simpl; try lia.
  intro Hq. rewrite (E1 Hq), (E Hq). lia.
Qed.

Lemma full_batch_counters (env : Env) (sess : Ledger.BatchSession) (signals : Signals)
    (l l' : Loop) :
  (full_batch env sess signals l = inl l' \/ full_batch env sess signals l = inr l') ->
  exists mid,
    stats (lst l') = incr_batches_completed
      (stats (fold_left (process_one env (Ledger.dry_run sess)) (batch_records l) (lst l))) /\
    trace l' = trace l ++ (EvBatchStarted :: map EvProcessRecord (batch_records l)) ++
               [EvProgress (progress_of (record_index l) (stats (lst l')))] ++ mid /\
    count_progress mid = O /\ processed_records mid = [].
Proof.
  unfold full_batch. cbn [process_batch fst snd].
  destruct (signals (checks l)) as [c p].
  destruct (error_log _) as [| e es]; simpl;
    (destruct c; [| destruct p]); intros [H | H]; inversion H; subst; clear H;
    cbn [lst trace stats].
  all: eexists.
  all: split; [reflexivity |].
  all: split; [repeat (rewrite <- List.app_assoc; simpl); reflexivity |].
  all: destruct (Ledger.delay_between_batches sess >? 0); split; reflexivity.
Qed.

Lemma fetched_quiet (r : SrcRecord) :
  count_progress [EvFetched r] = O /\ processed_records [EvFetched r] = [].
Proof. split; reflexivity. Qed.

Lemma step_counters (env : Env) (sess : Ledger.BatchSession) (signals : Signals)
    (l l' : Loop) (r : SrcRecord) :
  counter_inv env sess (trace l) (stats (lst l)) ->
  (step env sess signals l r = inl l' \/ step env sess signals l r = inr l') ->
  counter_inv env sess (trace l') (stats (lst l')).
Proof.
  intros D. unfold step. cbn [trace batch_records record_index lst checks with_trace].
  destruct (fetched_quiet r) as [C0 P0].
  pose proof (counter_inv_quiet env sess (trace l) [EvFetched r] (stats (lst l)) C0 P0 D) as D1.
  destruct (record_index l <? Ledger.current_offset sess).
  { intros [H | H]; inversion H; subst; clear H. exact D1. }
  destruct (date_filtered (Ledger.date_to sess) r).
  { intros [H | H]; inversion H; subst; clear H. exact D1. }
  match goal with |- context [if ?b then full_batch _ _ _ ?l0 else _] =>
    set (lb := l0); destruct b end.
  - intro H. destruct (full_batch_counters env sess signals lb l' H) as [mid [S [T [C P]]]].
    rewrite T, S. subst lb. cbn [trace batch_records record_index lst].
    apply counter_inv_batch; assumption.
  - intros [H | H]; inversion H; subst; clear H. exact D1.
Qed.

Lemma run_loop_counters (env : Env) (sess : Ledger.BatchSession) (signals : Signals)
    (src : list SrcRecord) (l l' : Loop) :
  counter_inv env sess (trace l) (stats (lst l)) ->
  (run_loop env sess signals src l = inl l' \/ run_loop env sess signals src l = inr l') ->
  counter_inv env sess (trace l') (stats (lst l')).
Proof.
  revert l. induction src as [| r src IH]; intros l D H; simpl in H.
  - destruct H as [H | H]; inversion H; subst; exact D.
  - destruct (step env sess signals l r) as [l1 | l1] eqn:Hs.
    + destruct H as [H | H]; inversion H; subst.
      exact (step_counters env sess signals l l' r D (or_introl Hs)).
    + exact (IH l1 (step_counters env sess signals l l1 r D (or_intror Hs)) H).
Qed.

Lemma finish_counters (env : Env) (sess : Ledger.BatchSession) (l : Loop) :
  counter_inv env sess (trace l) (stats (lst l)) ->
  counter_inv env sess (fst (finish env sess l)) (stats (snd (finish env sess l))).
Proof.
  intro D. unfold finish. destruct (batch_records l) as [| r0 recs] eqn:Hb.
  - cbn [fst snd]. apply counter_inv_quiet; [| reflexivity | exact D].
    destruct (_ =? 0); reflexivity.
  - cbn [process_batch fst snd].
    rewrite <- Hb.
    set (x := incr_batches_completed
                (stats (fold_left (process_one env (Ledger.dry_run sess)) (batch_records l) (lst l)))).
    pose proof (counter_inv_batch env sess (trace l)) as B.
    destruct (error_log _) as [| e es]; cbn [fst snd stats set_stats].
    + specialize (B [EvSetStatus (if errors x =? 0 then Completed else CompletedWithErrors);
                     EvClearRequests] (batch_records l) (record_index l) (lst l) D).
      rewrite <- !List.app_assoc. apply B; destruct (errors x =? 0); reflexivity.
    + specialize (B [EvAppendErrors (e :: es);
                     EvSetStatus (if errors x =? 0 then Completed else CompletedWithErrors);
                     EvClearRequests] (batch_records l) (record_index l) (lst l) D).
      rewrite <- !List.app_assoc. apply B; destruct (errors x =? 0); reflexivity.
Qed.

Lemma run_batch_sync_counters (env : Env) (sess : Ledger.BatchSession) (signals : Signals)
    (store : list Row * list (string * bytes)) (src : list SrcRecord) :
  let out := run_batch_sync env sess signals store src in
  counter_inv env sess (fst out) (stats (snd out)).
Proof.
  intro out. subst out. unfold run_batch_sync.
  match goal with |- context [run_loop env sess signals src ?l0] =>
    assert (H0 : counter_inv env sess (trace l0) (stats (lst l0))) end.
  { unfold counter_inv, image_total. cbn. repeat split; intros; lia. }
  destruct (run_loop env sess signals src _) as [l | l] eqn:Hr.
  - cbn [fst snd]. apply counter_inv_quiet; [reflexivity | reflexivity |].
    exact (run_loop_counters env sess signals src _ l H0 (or_introl Hr)).
  - apply finish_counters.
    exact (run_loop_counters env sess signals src _ l H0 (or_intror Hr)).
Qed.

(** X7: at the end of [BatchSyncEngine.run_batch_sync], [records_processed]
    has grown by the number of records handed to [_process_record], and
    [batches_completed] by the number of progress writes. *)
Theorem run_batch_sync_counts (env : Env) (sess : Ledger.BatchSession) (signals : Signals)
    (store : list Row * list (string * bytes)) (src : list SrcRecord) :
  let out := run_batch_sync env sess signals store src in
  records_processed (stats (snd out)) =
    Ledger.records_processed sess + Z.of_nat (List.length (processed_records (fst out))) /\
  batches_completed (stats (snd out)) =
    Ledger.batches_completed sess + Z.of_nat (count_progress (fst out)).
Proof.
  intro out. destruct (run_batch_sync_counters env sess signals store src) as [R [B _]].
  split; assumption.
Qed.

(** X8: in [run_batch_sync], [images_synced + images_skipped + errors] grows
    by at most one per attachment of a handled record, and by exactly one
    per attachment when the [image_exists] check never raises. *)
Theorem run_batch_sync_image_outcomes (env : Env) (sess : Ledger.BatchSession)
    (signals : Signals) (store : list Row * list (string * bytes)) (src : list SrcRecord) :
  let out := run_batch_sync env sess signals store src in
  let before := Ledger.images_synced sess + Ledger.images_skipped sess + Ledger.errors sess in
  image_total (stats (snd out)) <= before + attachments (processed_records (fst out)) /\
  ((forall a b, exists_raises env a b = false) ->
   image_total (stats (snd out)) = before + attachments (processed_records (fst out))).
Proof.
  intros out before. destruct (run_batch_sync_counters env sess signals store src)
    as [_ [_ [T [E _]]]].
  split; assumption.
Qed.

(** X9: after [run_batch_sync], the five counters of the [batch_sync_state]
    row, as the recorded writes leave them, equal those of the returned
    [stats] dict. *)
Theorem run_batch_sync_row_matches_stats (env : Env) (sess : Ledger.BatchSession)
    (signals : Signals) (store : list Row * list (string * bytes)) (src : list SrcRecord) :
  let out := run_batch_sync env sess signals store src in
  counters (Ledger.replay sess (fst out)) = stats_counters (stats (snd out)).
Proof.
  intro out. destruct (run_batch_sync_counters env sess signals store src)
    as [_ [_ [_ [_ K]]]].
  exact K.
Qed.

Lemma handled_app (a b : list RunEvent) : handled (a ++ b) = handled a ++ handled b.
Proof.
  induction a as [| e a IH]; [reflexivity |]. destruct e; simpl; rewrite ?IH; reflexivity.
Qed.

Lemma update_counts_app (a b : list RunEvent) :
  update_counts (a ++ b) = update_counts a ++ update_counts b.
Proof.
  induction a as [| e a IH]; [reflexivity |]. destruct e; simpl; rewrite ?IH; reflexivity.
Qed.

Lemma record_step_process_one (env : Env) (r : SrcRecord) (st : St) :
  record_step env r (set_stats st (incr_records_processed (stats st))) =
  process_one env false st r.
Proof. reflexivity. Qed.

Lemma sync_loop_step_events (r : SrcRecord) (s : Stats) :
  handled ([RProcessRecord r] ++
           (if records_processed s mod 50 =? 0
            then [RUpdateRun (records_processed s) (images_synced s) (images_skipped s) (errors s)]
            else [])) = [r] /\
  update_counts ([RProcessRecord r] ++
           (if records_processed s mod 50 =? 0
            then [RUpdateRun (records_processed s) (images_synced s) (images_skipped s) (errors s)]
            else [])) =
  (if records_processed s mod 50 =? 0 then [records_processed s] else []).
Proof. destruct (_ =? 0); split; reflexivity. Qed.

Lemma sync_loop_limit (env : Env) (m : Z) (src : list SrcRecord) (st : St)
    (ev : list RunEvent) (j : nat) :
  0 < m -> records_processed (stats st) = Z.of_nat j -> Z.of_nat j <= m ->
  let out := sync_loop env (Some m) src st ev in
  handled (snd out) = handled ev ++ firstn (Z.to_nat m - j) src /\
  records_processed (stats (fst out)) =
    (if Z.of_nat (j + List.length src) <=? m then Z.of_nat (j + List.length src) else m + 1).
Proof.
  revert st ev j. induction src as [| r src IH]; intros st ev j Hm Hj Hle; simpl.
  - rewrite firstn_nil, app_nil_r, Nat.add_0_r. split; [reflexivity |].
    destruct (Z.leb_spec (Z.of_nat j) m); lia.
  - unfold limit_reached. cbn [stats set_stats incr_records_processed records_processed].
    replace (negb (m =? 0)) with true by (symmetry; apply negb_true_iff, Z.eqb_neq; lia).
    rewrite Hj. simpl andb.
    destruct (Z.gtb_spec (Z.of_nat j + 1) m) as [Hgt | Hgt].
    + cbn [fst snd]. replace (Z.to_nat m - j)%nat with O by lia. rewrite app_nil_r.
      split; [reflexivity |]. cbn. destruct (Z.leb_spec (Z.of_nat (j + S (List.length src))) m);
        lia.
    + rewrite record_step_process_one.
      destruct (process_one_total env false st r) as [R _].
      match goal with |- context [sync_loop env (Some m) src ?s ?e] =>
        assert (He : handled e = handled ev ++ [r])
          by (rewrite handled_app; destruct (_ =? 0); reflexivity);
        destruct (IH s e (S j) Hm ltac:(lia) ltac:(lia)) as [H1 H2] end.
      split.
      * rewrite H1, He, <- List.app_assoc.
        replace (Z.to_nat m - j)%nat with (S (Z.to_nat m - S j)) by lia. reflexivity.
      * rewrite H2. replace (S j + List.length src)%nat with (j + S (List.length src))%nat
          by lia. reflexivity.
Qed.

Lemma sync_loop_no_limit (env : Env) (mr : option Z) (src : list SrcRecord) (st : St)
    (ev : list RunEvent) :
  (forall n, limit_reached mr n = false) ->
  let out := sync_loop env mr src st ev in
  handled (snd out) = handled ev ++ src /\
  records_processed (stats (fst out)) =
    records_processed (stats st) + Z.of_nat (List.length src).
Proof.
  intro Hl. revert st ev. induction src as [| r src IH]; intros st ev; simpl.
  - rewrite app_nil_r. split; [reflexivity | lia].
  - rewrite Hl, record_step_process_one.
    destruct (process_one_total env false st r) as [R _].
    match goal with |- context [sync_loop env mr src ?s ?e] =>
      assert (He : handled e = handled ev ++ [r])
        by (rewrite handled_app; destruct (_ =? 0); reflexivity);
      destruct (IH s e) as [H1 H2] end.
    rewrite H1, He, <- List.app_assoc, H2, R. split; [reflexivity | lia].
Qed.

Lemma sync_loop_general (env : Env) (mr : option Z) (src : list SrcRecord) (st : St)
    (ev : list RunEvent) (j : nat) :
  records_processed (stats st) = Z.of_nat j ->
  let out := sync_loop env mr src st ev in
  exists recs,
    handled (snd out) = handled ev ++ recs /\
    update_counts (snd out) =
      update_counts ev ++
      filter (fun i => i mod 50 =? 0) (map Z.of_nat (seq (S j) (List.length recs))) /\
    image_total (stats (fst out)) <= image_total (stats st) + attachments recs /\
    ((forall a b, exists_raises env a b = false) ->
     image_total (stats (fst out)) = image_total (stats st) + attachments recs).
Proof.
  revert st ev j. induction src as [| r src IH]; intros st ev j Hj; simpl.
  - exists []. simpl. rewrite !app_nil_r. repeat split; intros; lia.
  - destruct (limit_reached mr (records_processed (stats st) + 1)).
    + exists []. simpl. rewrite !app_nil_r. unfold image_total. simpl.
      repeat split; intros; lia.
    + rewrite record_step_process_one.
      destruct (process_one_total env false st r) as [R [_ [T1 E1]]].
      match goal with |- context [sync_loop env mr src ?s ?e] =>
        assert (He : handled e = handled ev ++ [r] /\
                     update_counts e = update_counts ev ++
                       (if Z.of_nat (S j) mod 50 =? 0 then [Z.of_nat (S j)] else []))
          by (rewrite handled_app, update_counts_app, R, Hj;
              replace (Z.of_nat j + 1) with (Z.of_nat (S j)) by lia;
              destruct (Z.of_nat (S j) mod 50 =? 0); split; reflexivity);
        destruct (IH s e (S j) ltac:(lia)) as [recs [H1 [H2 [H3 H4]]]] end.
      destruct He as [He1 He2].
      exists (r :: recs). rewrite H1, H2, He1, He2, <- !List.app_assoc. simpl.
      split; [reflexivity |]. split.
      * destruct (Z.pos (Pos.of_succ_nat j) mod 50 =? 0); reflexivity.
      * split; [lia |]. intro Hq. rewrite (H4 Hq), (E1 Hq). lia.
Qed.

Lemma run_sync_events (env : Env) (mr : option Z) (store : list Row * list (string * bytes))
    (src : list SrcRecord) :
  let st0 := {| rows := fst store; uploads := snd store;
                stats := {| records_processed := 0; images_synced := 0;
                            images_skipped := 0; errors := 0; batches_completed := 0 |};
                error_log := [] |} in
  let out := run_sync env mr store src in
  let lp := sync_loop env mr src st0 [] in
  fst out = fst lp /\ handled (snd out) = handled (snd lp) /\
  update_counts (snd out) = update_counts (snd lp).
Proof.
  intros st0 out lp. subst out lp. unfold run_sync. fold st0.
  destruct (sync_loop env mr src st0 []) as [st ev]. cbn [fst snd].
  rewrite handled_app, update_counts_app. simpl. rewrite !app_nil_r. auto.
Qed.


(** X10: with [max_records = m > 0], [SyncEngine.run_sync] hands the first
    [m] records to [_process_record] (all of them when there are fewer), and
    the returned [records_processed] is [m + 1] when more than [m] records
    were fetched, since the counter is incremented before the limit test. *)
Theorem run_sync_max_records (env : Env) (m : Z) (store : list Row * list (string * bytes))
    (src : list SrcRecord) :
  0 < m ->
  let out := run_sync env (Some m) store src in
  handled (snd out) = firstn (Z.to_nat m) src /\
  records_processed (stats (fst out)) =
    (if Z.of_nat (List.length src) <=? m then Z.of_nat (List.length src) else m + 1).
Proof.
  intros Hm out. subst out.
  destruct (run_sync_events env (Some m) store src) as [F [H _]].
  rewrite F, H.
  match goal with |- context [sync_loop env _ src ?s []] =>
    destruct (sync_loop_limit env m src s [] 0 Hm eq_refl ltac:(lia)) as [H1 H2] end.
  rewrite H1, H2, Nat.sub_0_r. split; reflexivity.
Qed.

Lemma run_sync_max_records_witness :
  0 < 2 /\
  (let out := run_sync healthy_env (Some 2) ([], []) five_records in
   handled (snd out) = firstn (Z.to_nat 2) five_records /\
   records_processed (stats (fst out)) =
     (if Z.of_nat (List.length five_records) <=? 2
      then Z.of_nat (List.length five_records) else 2 + 1)).
Proof. split; [lia | apply run_sync_max_records; lia]. Defined.

(** X11: with [max_records] equal to [None] or [0], [run_sync] hands every
    fetched record to [_process_record] and returns [records_processed] equal
    to their number. *)
Theorem run_sync_without_limit (env : Env) (mr : option Z)
    (store : list Row * list (string * bytes)) (src : list SrcRecord) :
  mr = None \/ mr = Some 0 ->
  let out := run_sync env mr store src in
  handled (snd out) = src /\
  records_processed (stats (fst out)) = Z.of_nat (List.length src).
Proof.
  intros Hmr out. subst out.
  destruct (run_sync_events env mr store src) as [F [H _]].
  rewrite F, H.
  match goal with |- context [sync_loop env _ src ?s []] =>
    pose proof (sync_loop_no_limit env mr src s []) as G end.
  destruct G as [H1 H2].
  - intro n. destruct Hmr as [-> | ->]; reflexivity.
  - rewrite H1, H2. split; reflexivity.
Qed.

Lemma run_sync_without_limit_witness :
  (@None Z = None \/ @None Z = Some 0) /\
  (let out := run_sync healthy_env None ([], []) five_records in
   handled (snd out) = five_records /\
   records_processed (stats (fst out)) = Z.of_nat (List.length five_records)).
Proof.
  split; [left; reflexivity |].
  apply run_sync_without_limit. left. reflexivity.
Defined.

(** X12: [run_sync] calls [update_run] exactly once per multiple of 50 among
    [1 .. n], [n] the number of handled records, with that multiple as its
    [records_processed]. *)
Theorem run_sync_update_cadence (env : Env) (mr : option Z)
    (store : list Row * list (string * bytes)) (src : list SrcRecord) :
  let out := run_sync env mr store src in
  update_counts (snd out) =
    filter (fun i => i mod 50 =? 0) (map Z.of_nat (seq 1 (List.length (handled (snd out))))).
Proof.
  intro out. subst out.
  destruct (run_sync_events env mr store src) as [_ [H U]].
  rewrite H, U.
  match goal with |- context [sync_loop env _ src ?s []] =>
    pose proof (sync_loop_general env mr src s [] 0 eq_refl) as G end.
  destruct G as [recs [H1 [H2 _]]].
  rewrite H1, H2. reflexivity.
Qed.

(** X13: the [images_synced + images_skipped + errors] returned by [run_sync]
    is at most the number of attachments of the handled records, and equal
    to it when the [image_exists] check never raises. *)
Theorem run_sync_image_outcomes (env : Env) (mr : option Z)
    (store : list Row * list (string * bytes)) (src : list SrcRecord) :
  let out := run_sync env mr store src in
  image_total (stats (fst out)) <= attachments (handled (snd out)) /\
  ((forall a b, exists_raises env a b = false) ->
   image_total (stats (fst out)) = attachments (handled (snd out))).
Proof.
  intro out. subst out.
  destruct (run_sync_events env mr store src) as [F [H _]].
  rewrite F, H.
  match goal with |- context [sync_loop env _ src ?s []] =>
    pose proof (sync_loop_general env mr src s [] 0 eq_refl) as G end.
  destruct G as [recs [H1 [_ [H3 H4]]]].
  rewrite H1. cbn [handled app]. unfold image_total in *. cbn in H3, H4 |- *.
  split; [lia | intro Hq; rewrite (H4 Hq); lia].
Qed.

Lemma list_items_sound (xf : string -> Json -> string -> Json) (py_str : Json -> string)
    (record : list (string * Json)) (field : string) (items : list Json) (i : nat)
    (x : Extracted) :
  In x (list_items py_str record field i items) ->
  truthy (x_download_url x) = true /\ exists j, x_field_name x = (field ++ "_" ++ str_of_nat j)%string.
Proof.
  revert i. induction items as [| item items IH]; intros i Hin; simpl in Hin; [contradiction |].
  apply in_app_iff in Hin as [Hin | Hin]; [| exact (IH (S i) Hin)].
  unfold list_item in Hin. cbv zeta in Hin. destruct item; simpl in Hin; try contradiction.
  - destruct (is_image_url s) eqn:Hs; [| simpl in Hin; contradiction].
    destruct Hin as [<- | []]. cbn. split; [| eauto].
    destruct s as [| c s']; [vm_compute in Hs; discriminate | reflexivity].
  - destruct (truthy (py_or (py_or (get kv "download_url") (get kv "filepath")) (get kv "url"))) eqn:Ht; [| simpl in Hin; contradiction].
    destruct Hin as [<- | []]. cbn. split; [exact Ht | eauto].
Qed.

Lemma py_or_fallback_truthy (a b : Json) : truthy b = true -> truthy (py_or a b) = true.
Proof. unfold py_or. destruct (truthy a) eqn:E; auto. Qed.

Lemma fallback_truthy (s t : string) : truthy (JStr (s ++ "_" ++ t)) = true.
Proof. destruct s; reflexivity. Qed.



(** X14: every entry returned by [ZohoCreatorClient.extract_image_fields]
    has a truthy [download_url] and comes from a non-system field [k] of the
    record: either its [field_name] is [k] and its [filename] is truthy, or
    the field holds a list and its [field_name] is [k_i]. *)
Theorem extract_image_fields_sound (xf : string -> Json -> string -> Json)
    (py_str : Json -> string) (record : list (string * Json)) (x : Extracted) :
  In x (extract_image_fields xf py_str record) ->
  truthy (x_download_url x) = true /\
  exists k v, In (k, v) record /\ ~ In k system_fields /\
    ((x_field_name x = k /\ truthy (x_filename x) = true) \/
     (exists l i, v = JList l /\ x_field_name x = (k ++ "_" ++ str_of_nat i)%string)).
Proof.
  unfold extract_image_fields. intro Hin.
  apply in_flat_map in Hin as [[k v] [Hkv Hin]]. cbn [fst snd] in Hin.
  unfold field_images in Hin.
  destruct (existsb (String.eqb k) system_fields) eqn:Hsys; [contradiction |].
  assert (Hns : ~ In k system_fields).
  { intro H. assert (E : existsb (String.eqb k) system_fields = true).
    { apply existsb_exists. exists k. split; [exact H | apply String.eqb_refl]. }
    congruence. }
  assert (Fin : forall du fn, In x (field_image py_str record k du fn) ->
      truthy (x_download_url x) = true /\
      exists k' v', In (k', v') record /\ ~ In k' system_fields /\
        ((x_field_name x = k' /\ truthy (x_filename x) = true) \/
         (exists l i, v' = JList l /\ x_field_name x = (k' ++ "_" ++ str_of_nat i)%string))).
  { intros du fn H. unfold field_image in H. destruct (truthy du) eqn:Hd; [| contradiction].
    destruct H as [<- | []]. cbn. split; [exact Hd |].
    exists k, v. split; [exact Hkv | split; [exact Hns |]]. left. split; [reflexivity |].
    apply py_or_fallback_truthy, fallback_truthy. }
  destruct v as [| b | z | s | l | d]; cbv beta zeta in Hin; try (apply (Fin _ _ Hin)).
  - destruct (is_image_url s); apply (Fin _ _ Hin).
  - destruct l as [| item items]; [apply (Fin _ _ Hin) |].
    destruct (list_items_sound xf py_str record k (item :: items) 0 x Hin) as [Ht [j Hj]].
    split; [exact Ht |]. exists k, (JList (item :: items)).
    split; [exact Hkv | split; [exact Hns |]]. right. eauto.
Qed.

Lemma extract_image_fields_sound_witness :
  let x := {| x_field_name := "Photos_1"; x_download_url := JStr "https://a/b";
              x_filename := JStr "" |}%string in
  In x (extract_image_fields (fun _ _ _ => JNull) (fun _ => "42"%string) sample_record) /\
  (truthy (x_download_url x) = true /\
   exists k v, In (k, v) sample_record /\ ~ In k system_fields /\
     ((x_field_name x = k /\ truthy (x_filename x) = true) \/
      (exists l i, v = JList l /\ x_field_name x = (k ++ "_" ++ str_of_nat i)%string))).
Proof.
  intro x.
  assert (H : In x (extract_image_fields (fun _ _ _ => JNull) (fun _ => "42"%string) sample_record)).
  { vm_compute. left. reflexivity. }
  split; [exact H | exact (extract_image_fields_sound (fun _ _ _ => JNull) (fun _ => "42"%string)
                             sample_record x H)].
Defined.

Lemma list_items_nth (py_str : Json -> string) (record : list (string * Json))
    (field : string) (items : list Json) (j i : nat) (item : Json) (x : Extracted) :
  nth_error items i = Some item ->
  In x (list_item py_str record field (j + i) item) ->
  In x (list_items py_str record field j items).
Proof.
  revert j i. induction items as [| it items IH]; intros j i Hn Hx;
    destruct i as [| i]; simpl in Hn; try discriminate.
  - injection Hn as <-. rewrite Nat.add_0_r in Hx. simpl. apply in_or_app. left. exact Hx.
  - simpl. apply in_or_app. right. apply (IH (S j) i Hn). rewrite Nat.add_succ_r in Hx. exact Hx.
Qed.

Lemma get_or_has_key (d : list (string * Json)) (k : string) (dflt : Json) :
  get_or d k dflt = if has_key d k then get d k else dflt.
Proof.
  unfold get, get_or, has_key. induction d as [| [k' v] d IH]; simpl; [reflexivity |].
  destruct (String.eqb k' k); simpl; [reflexivity | exact IH].
Qed.


(** X15: an item [i] of a list field [k] that is a dict with a truthy
    [download_url], [filepath] or [url] is returned as [k_i] with that URL,
    and its [filename] is the item's [filename] value as it is, even when
    empty; the [ID_k_i] fallback is used only when the key is missing. *)
Theorem extract_image_fields_list_item (xf : string -> Json -> string -> Json)
    (py_str : Json -> string) (record : list (string * Json)) (k : string)
    (items : list Json) (i : nat) (d : list (string * Json)) :
  In (k, JList items) record -> ~ In k system_fields ->
  nth_error items i = Some (JDict d) ->
  let item_url := py_or (py_or (get d "download_url") (get d "filepath")) (get d "url") in
  truthy item_url = true ->
  In {| x_field_name := (k ++ "_" ++ str_of_nat i)%string;
        x_download_url := item_url;
        x_filename := if has_key d "filename" then get d "filename"
                      else JStr (id_text py_str record ++ "_" ++ k ++ "_" ++ str_of_nat i) |}
     (extract_image_fields xf py_str record).
Proof.
  intros Hk Hns Hn item_url Hu.
  unfold extract_image_fields. apply in_flat_map. exists (k, JList items).
  split; [exact Hk |]. cbn [fst snd]. unfold field_images.
  destruct (existsb (String.eqb k) system_fields) eqn:Hsys.
  { exfalso. apply Hns. apply existsb_exists in Hsys as [k' [Hin Heq]].
    apply String.eqb_eq in Heq. subst k'. exact Hin. }
  destruct items as [| it rest]; [destruct i; discriminate |].
  cbv beta zeta. apply (list_items_nth py_str record k (it :: rest) 0 i (JDict d)); [exact Hn |].
  simpl. unfold list_item. cbv zeta. fold item_url. rewrite Hu.
  rewrite get_or_has_key. left. reflexivity.
Qed.


Lemma extract_image_fields_list_item_witness :
  In {| x_field_name := "Photos_1"; x_download_url := JStr "https://a/b"; x_filename := JStr "" |}%string
     (extract_image_fields (fun _ _ _ => JNull) (fun _ => "42"%string) sample_record).
Proof.
  apply (extract_image_fields_list_item (fun _ _ _ => JNull) (fun _ => "42"%string) sample_record
           "Photos" [JStr "x"; JDict [("url", JStr "https://a/b"); ("filename", JStr "")]] 1
           [("url", JStr "https://a/b"); ("filename", JStr "")])%string.
  - simpl. right. left. reflexivity.
  - simpl. intuition discriminate.
  - reflexivity.
  - reflexivity.
Defined.


(** X16: [ImageRepository.get_images] and [ImageRepository.get_count] apply
    the same filters in the same order; [get_images] then sorts on a column
    of [allowed_sort_fields] (the one asked for when it is allowed),
    descending iff [sort_order.lower() == "desc"], and asks for a range of
    exactly [limit] rows from [offset]. *)
Theorem get_images_matches_get_count (f : ImageFilters) (sort_by sort_order : string)
    (limit offset : Z) :
  exists filters col,
    get_count f = SelectCount "id"%string :: filters /\
    get_images f sort_by sort_order limit offset =
      Select "*"%string :: filters ++ [Order col (String.eqb (lower sort_order) "desc"%string);
                                Range offset (offset + limit - 1)] /\
    In col allowed_sort_fields /\
    (In sort_by allowed_sort_fields -> col = sort_by) /\
    range_size (get_images f sort_by sort_order limit offset) = Some limit.
Proof.
  set (col := if existsb (String.eqb sort_by) allowed_sort_fields
              then sort_by else "zoho_created_at"%string).
  assert (Hc : get_count f = SelectCount "id"%string :: tl (get_count f)).
  { unfold get_count, then_op. cbv zeta.
    destruct (tags_truthy (f_tags f)), (opt_truthy (f_category f)),
      (opt_truthy (f_job_captain_timesheet f)), (opt_truthy (f_project_name f)),
      (opt_truthy (f_department f)), (opt_truthy (f_photo_origin f)),
      (opt_truthy (f_search f)), (opt_truthy (f_date_from f)),
      (opt_truthy (f_date_to f)); reflexivity. }
  assert (Hi : get_images f sort_by sort_order limit offset =
      Select "*"%string :: tl (get_count f) ++ [Order col (String.eqb (lower sort_order) "desc"%string);
                                       Range offset (offset + limit - 1)]).
  { unfold get_images, get_count, then_op. cbv zeta. fold col.
    destruct (tags_truthy (f_tags f)), (opt_truthy (f_category f)),
      (opt_truthy (f_job_captain_timesheet f)), (opt_truthy (f_project_name f)),
      (opt_truthy (f_department f)), (opt_truthy (f_photo_origin f)),
      (opt_truthy (f_search f)), (opt_truthy (f_date_from f)),
      (opt_truthy (f_date_to f)); reflexivity. }
  exists (tl (get_count f)), col.
  split; [exact Hc |]. split; [exact Hi |]. split; [| split].
  - unfold col. destruct (existsb (String.eqb sort_by) allowed_sort_fields) eqn:E.
    + apply existsb_exists in E as [c [Hin Hc']]. apply String.eqb_eq in Hc'. subst c. exact Hin.
    + simpl. left. reflexivity.
  - intro Hin. unfold col.
    assert (E : existsb (String.eqb sort_by) allowed_sort_fields = true).
    { apply existsb_exists. exists sort_by. split; [exact Hin | apply String.eqb_refl]. }
    rewrite E. reflexivity.
  - rewrite Hi. unfold range_size.
    rewrite (app_comm_cons _ _ (Select "*"%string)).
    change [Order col (String.eqb (lower sort_order) "desc"%string); Range offset (offset + limit - 1)]
      with ([Order col (String.eqb (lower sort_order) "desc"%string)] ++ [Range offset (offset + limit - 1)]).
    rewrite app_assoc.
    rewrite rev_unit. f_equal. lia.
Qed.
